(** * PersonalMedia: the media-source adapters and their update detection

    A shallow embedding of [src/services/MediaSource.ts] and of the three
    adapters built on it ([PodcastSource], [YouTubeSource], [SpotifySource]),
    followed by the properties of pagination, duration parsing and
    [checkForUpdates] that the design document states about them. *)

From Stdlib Require Import ZArith Lia Ascii.
From stdpp Require Import base strings list gmap pretty.

Local Open Scope string_scope.
Local Open Scope list_scope.
Local Open Scope Z_scope.

(** ** JavaScript values used by the adapters *)

Module Js.

(** A string is a sequence of code units; the model covers the code units
    0..255, one [ascii] each. *)

Definition code (c : ascii) : N := N_of_ascii c.

(** The class [\d] of the regular expressions and of [parseInt]. *)
Definition is_digit (c : ascii) : bool :=
  (48 <=? code c)%N && (code c <=? 57)%N.

Definition digit_value (c : ascii) : Z := Z.of_N (code c) - 48.

(** White space and line terminators removed by [trim] and skipped by
    [parseInt]: TAB, LF, VT, FF, CR, SP and NBSP (the ones below 256). *)
Definition is_white (c : ascii) : bool :=
  let n := code c in
  ((9 <=? n)%N && (n <=? 13)%N) || (n =? 32)%N || (n =? 160)%N.

Fixpoint trimStart (s : string) : string :=
  match s with
  | String c s' => if is_white c then trimStart s' else s
  | EmptyString => EmptyString
  end.

Definition trimEnd (s : string) : string :=
  String.rev (trimStart (String.rev s)).

Definition trim (s : string) : string := trimEnd (trimStart s).

(** [/^\d+$/.test(s)] *)
Fixpoint all_digits (s : string) : bool :=
  match s with
  | String c s' => is_digit c && all_digits s'
  | EmptyString => true
  end.

Definition test_digits (s : string) : bool :=
  match s with
  | EmptyString => false
  | _ => all_digits s
  end.

(** [s.split(":")]: the pieces between the colons, at least one. *)
Fixpoint split_go (sep : ascii) (cur : string) (s : string) : list string :=
  match s with
  | EmptyString => [String.rev cur]
  | String c s' =>
      if Ascii.eqb c sep then String.rev cur :: split_go sep EmptyString s'
      else split_go sep (String c cur) s'
  end.

Definition split (sep : ascii) (s : string) : list string :=
  split_go sep EmptyString s.

(** Numbers.  The adapters compute on page sizes, offsets, list lengths
    and whole seconds, so the model keeps the integers and [NaN].  [Int z]
    is the double that equals [z]; up to [MAX_SAFE_INTEGER] every integer is
    one, and the rounding of larger ones is not represented. *)
Inductive number : Type :=
| Int (z : Z)
| NaN.

Definition MAX_SAFE_INTEGER : Z := 2 ^ 53 - 1.

Global Instance number_eq_dec : EqDecision number.
Proof. solve_decision. Defined.

Definition add (a b : number) : number :=
  match a, b with
  | Int x, Int y => Int (x + y)
  | _, _ => NaN
  end.

Definition mul (a b : number) : number :=
  match a, b with
  | Int x, Int y => Int (x * y)
  | _, _ => NaN
  end.

(** [a < b]: false as soon as one side is [NaN]. *)
Definition lt (a b : number) : bool :=
  match a, b with
  | Int x, Int y => x <? y
  | _, _ => false
  end.

(** The value of the longest run of decimal digits at the head of [s],
    read after the digits already accumulated in [acc]. *)
Fixpoint digits_value (acc : Z) (s : string) : Z :=
  match s with
  | String c s' =>
      if is_digit c then digits_value (10 * acc + digit_value c) s' else acc
  | EmptyString => acc
  end.

Definition starts_with_digit (s : string) : bool :=
  match s with
  | String c _ => is_digit c
  | EmptyString => false
  end.

(** [parseInt(s, 10)]: leading white space is skipped, one sign is
    accepted, then the longest run of digits is read; no digit gives
    [NaN], and whatever follows the digits is ignored. *)
Definition parseInt (s : string) : number :=
  let t := trimStart s in
  let '(negative, body) :=
    match t with
    | String "-" r => (true, r)
    | String "+" r => (false, r)
    | _ => (false, t)
    end in
  if starts_with_digit body
  then Int (if negative : bool then - digits_value 0 body else digits_value 0 body)
  else NaN.

(** [String(n)], for the integers printed in plain decimal: those below
    [10 ^ 21] in size, the safe integers among them.  From [10 ^ 21] on
    JavaScript prints an exponent, which is not represented. *)
Definition String_ (n : number) : string :=
  match n with
  | Int z => pretty z
  | NaN => "NaN"
  end.

(** Truthiness of an optional string: [undefined], [null] and the empty
    string are falsy. *)
Definition truthy (o : option string) : bool :=
  match o with
  | Some s => negb (String.eqb s "")
  | None => false
  end.

(** [a || undefined] on an optional string. *)
Definition or_undefined (o : option string) : option string :=
  if truthy o then o else None.

(** [a ?? b] *)
Definition nullish {A} (o : option A) (d : A) : A := from_option id d o.

(** [Array.prototype.slice(start, end)]: both bounds go through
    ToIntegerOrInfinity ([NaN] becomes 0), a negative bound counts from the
    end, and both are clamped to the length. *)
Definition ToIntegerOrInfinity (n : number) : Z :=
  match n with
  | Int z => z
  | NaN => 0
  end.

Definition relative_index (len i : Z) : Z :=
  if i <? 0 then Z.max (len + i) 0 else Z.min i len.

Definition slice {A} (l : list A) (start end_ : number) : list A :=
  let len := Z.of_nat (length l) in
  let k := relative_index len (ToIntegerOrInfinity start) in
  let final := relative_index len (ToIntegerOrInfinity end_) in
  take (Z.to_nat (final - k)) (drop (Z.to_nat k) l).

Definition length_ {A} (l : list A) : number := Int (Z.of_nat (length l)).

(** What a [throw] carries. *)
Inductive exn : Type :=
| Error (message : string)
| RangeError (message : string)
| TypeError (message : string).

(** [Map<string, V>]: iteration follows insertion order, and [set] on a
    key already present keeps its place. *)
Definition Map (V : Type) : Type := list (string * V).

Fixpoint Map_get {V} (m : Map V) (k : string) : option V :=
  match m with
  | [] => None
  | (k', v) :: m' => if String.eqb k' k then Some v else Map_get m' k
  end.

Fixpoint Map_set {V} (m : Map V) (k : string) (v : V) : Map V :=
  match m with
  | [] => [(k, v)]
  | (k', v') :: m' =>
      if String.eqb k' k then (k, v) :: m' else (k', v') :: Map_set m' k v
  end.

Definition Map_values {V} (m : Map V) : list V := m.*2.

End Js.

Import Js.

(** ** The data model of [src/types/media.ts] *)

Inductive MediaSourceType : Type := Spotify | YouTube | Podcast.

Inductive MediaContentType : Type :=
  Track | Album | Playlist | Video | Channel | Episode | Feed.

Record MediaItem : Type := {
  item_id : string;
  item_source : MediaSourceType;
  item_title : string;
  item_sourceId : string;
  item_thumbnail : option string;
  item_duration : option number;
  item_artist : option string;
  item_publishedAt : option string;
}.

Record MediaCollection : Type := {
  coll_id : string;
  coll_source : MediaSourceType;
  coll_title : string;
  coll_description : option string;
  coll_thumbnail : option string;
  coll_contentType : MediaContentType;
  coll_itemCount : option number;
}.

Record FetchMediaOptions : Type := {
  limit : option number;
  cursor : option string;
}.

Record PaginatedResult (T : Type) : Type := {
  items : list T;
  nextCursor : option string;
  total : option number;
}.
Arguments items {T} _.
Arguments nextCursor {T} _.
Arguments total {T} _.

(** ** Methods as state transformers that may throw

    A method runs on the adapter object [S], returns or throws, and leaves
    the object as it was at that point.  [OutOfFuel] is the third outcome of
    a loop that was given too few iterations; only the page walk of
    [YouTubeSource] can produce it. *)

Inductive outcome (A : Type) : Type :=
| Ok (a : A)
| Throw (e : exn)
| OutOfFuel.
Arguments Ok {A} a.
Arguments Throw {A} e.
Arguments OutOfFuel {A}.

Definition M (S A : Type) : Type := S -> outcome A * S.

Definition ret {S A} (a : A) : M S A := fun s => (Ok a, s).

Definition throw {S A} (e : exn) : M S A := fun s => (Throw e, s).

Definition bind {S A B} (m : M S A) (k : A -> M S B) : M S B :=
  fun s =>
    match m s with
    | (Ok a, s') => k a s'
    | (Throw e, s') => (Throw e, s')
    | (OutOfFuel, s') => (OutOfFuel, s')
    end.

Definition this {S} : M S S := fun s => (Ok s, s).

Definition update {S} (f : S -> S) : M S unit := fun s => (Ok tt, f s).

Declare Scope method_scope.
Delimit Scope method_scope with method.
Notation "x <- m ;; k" := (bind m (fun x => k))
  (at level 100, m at next level, right associativity) : method_scope.
Notation "m ;;; k" := (bind m (fun _ => k))
  (at level 100, right associativity) : method_scope.
Local Open Scope method_scope.

(** ** [MediaSource]: the abstract base class

    The members every adapter defines, and the two methods the base class
    implements itself. *)

Class MediaSource (S : Type) : Type := {
  sourceType : MediaSourceType;
  displayName : string;
  isUpdateSource : bool;
  defaultUpdateIntervalMinutes : Z;
  requiresAuth : bool;
  fetchUpdatesSince : string -> string -> M S (list MediaItem);
}.

(** The body a subclass inherits when it does not override
    [fetchUpdatesSince]. *)
Definition MediaSource_fetchUpdatesSince {S}
    (_collectionId _lastSeenItemId : string) : M S (list MediaItem) :=
  ret [].

Definition checkForUpdates {S} `{MediaSource S}
    (collectionId lastSeenItemId : string) : M S (list MediaItem) :=
  if negb isUpdateSource
  then throw (Error (displayName +:+ " does not support update polling"))
  else fetchUpdatesSince collectionId lastSeenItemId.

(** The UnsupportedOperation condition of the design: the error that
    [checkForUpdates] throws on a source that cannot be polled. *)
Definition UnsupportedOperation (e : exn) : Prop :=
  exists name, e = Error (name +:+ " does not support update polling").

(** The loop shared by the two update routines:
    [for (const x of xs) { if (id(x) === lastSeenItemId) { found = true; break; } acc.push(f(x)); }]
    It returns the array after the loop and whether the marker was met. *)
Fixpoint scan_until {A} (ident : A -> string) (f : A -> MediaItem)
    (lastSeenItemId : string) (xs : list A) (acc : list MediaItem)
  : list MediaItem * bool :=
  match xs with
  | [] => (acc, false)
  | x :: xs' =>
      if String.eqb (ident x) lastSeenItemId then (acc, true)
      else scan_until ident f lastSeenItemId xs' (acc ++ [f x])
  end.

(** ** [PodcastSource]: the adapter that parses RSS feeds locally *)

Record PodcastEpisode : Type := {
  guid : string;
  ep_title : string;
  ep_description : option string;
  audioUrl : string;
  ep_imageUrl : option string;
  ep_publishedAt : option string;
  ep_duration : option number;
}.

Record PodcastFeed : Type := {
  url : string;
  feed_title : string;
  feed_description : option string;
  feed_imageUrl : option string;
  episodes : list PodcastEpisode;
}.

Record PodcastSource : Type := {
  feeds : Map PodcastFeed;
  corsProxyUrl : option string;
}.

(** What the browser gives the adapter.  A fetched document is seen through
    the DOM queries [parseRssFeed] makes on it, each an optional string
    ([None] when the element or attribute is missing). *)

Record RssItem : Type := {
  rss_enclosure_url : option string;   (* enclosure?.getAttribute('url') *)
  rss_guid : option string;            (* querySelector('guid')?.textContent *)
  rss_title : option string;
  rss_description : option string;
  rss_pubDate : option string;
  rss_href : option string;            (* querySelector('[href]')?.getAttribute('href') *)
  rss_itunes_duration : option string; (* getElementsByTagName('itunes:duration')[0] *)
  rss_duration : option string;        (* getElementsByTagName('duration')[0] *)
}.

Record RssChannel : Type := {
  chan_title : option string;
  chan_description : option string;
  chan_image_url : option string;      (* querySelector('image > url')?.textContent *)
  chan_href : option string;
  chan_items : list RssItem;
}.

Record Response : Type := {
  ok : bool;
  status : Z;
  statusText : string;
  text : string;
}.

Inductive FetchResult : Type :=
| Resolved (r : Response)
| Rejected (e : exn).

Record Browser : Type := {
  (** [fetch(url)]: what the network answers while the calls under study
      run (no new content is published in between). *)
  fetch : string -> FetchResult;
  (** [new DOMParser().parseFromString(xml, ...).querySelector('channel')] *)
  parseChannel : string -> option RssChannel;
  (** [new Date(s).toISOString()]; [None] for an invalid date, where
      [toISOString] throws a RangeError. *)
  toISOString : string -> option string;
  encodeURIComponent : string -> string;
  (** [Number(s)] on a string that is neither blank nor a run of decimal
      digits (signs, fractions, exponents, other radixes, non-numerals). *)
  Number_other : string -> number;
}.

Section Podcast.

Context (browser : Browser).

(** [Number(s)]: a blank string is 0 and a run of decimal digits is its
    value. *)
Definition Number (s : string) : number :=
  let t := trim s in
  if String.eqb t "" then Int 0
  else if all_digits t then Int (digits_value 0 t)
  else Number_other browser t.

Definition parseDuration (raw : string) : number :=
  let trimmed := trim raw in
  if test_digits trimmed then parseInt trimmed
  else
    let parts := map Number (split ":" trimmed) in
    match parts with
    | [p0; p1; p2] => add (add (mul p0 (Int 3600)) (mul p1 (Int 60))) p2
    | [p0; p1] => add (mul p0 (Int 60)) p1
    | _ => Int 0
    end.

Definition getElementByTagNameNS_duration (item : RssItem) : option string :=
  match rss_itunes_duration item with
  | Some t => Some t
  | None => rss_duration item
  end.

(** The callback of [itemElements.forEach] in [parseRssFeed]: it pushes
    one episode, or nothing for an item without audio. *)
Definition parseItem (item : RssItem) (eps : list PodcastEpisode)
  : M PodcastSource (list PodcastEpisode) :=
  let audio := rss_enclosure_url item in
  if negb (truthy audio) then ret eps
  else
    let audioUrl := nullish audio "" in
    let guid := nullish (rss_guid item) audioUrl in
    let epTitle := nullish (rss_title item) "Untitled Episode" in
    let durationStr := getElementByTagNameNS_duration item in
    let duration :=
      if truthy durationStr
      then Some (parseDuration (nullish durationStr ""))
      else None in
    publishedAt <-
      (if truthy (rss_pubDate item)
       then match toISOString browser (nullish (rss_pubDate item) "") with
            | Some iso => ret (Some iso)
            | None => throw (RangeError "Invalid time value")
            end
       else ret None) ;;
    ret (eps ++ [ {| guid := guid;
                     ep_title := epTitle;
                     ep_description := rss_description item;
                     audioUrl := audioUrl;
                     ep_imageUrl := rss_href item;
                     ep_publishedAt := publishedAt;
                     ep_duration := duration |} ]).

Fixpoint parseItems (its : list RssItem) (eps : list PodcastEpisode)
  : M PodcastSource (list PodcastEpisode) :=
  match its with
  | [] => ret eps
  | item :: rest => eps' <- parseItem item eps ;; parseItems rest eps'
  end.

Definition parseRssFeed (xml feedUrl : string) : M PodcastSource PodcastFeed :=
  match parseChannel browser xml with
  | None => throw (Error "Invalid RSS feed: no <channel> element")
  | Some chan =>
      let title := nullish (chan_title chan) "Unknown Podcast" in
      let description := chan_description chan in
      let imageUrl :=
        match chan_image_url chan with
        | Some u => Some u
        | None => chan_href chan
        end in
      eps <- parseItems (chan_items chan) [] ;;
      ret {| url := feedUrl;
             feed_title := title;
             feed_description := or_undefined description;
             feed_imageUrl := or_undefined imageUrl;
             episodes := eps |}
  end.

Definition fetchAndParseFeed (feedUrl : string) : M PodcastSource PodcastFeed :=
  self <- this ;;
  let fetchUrl :=
    if truthy (corsProxyUrl self)
    then nullish (corsProxyUrl self) "" +:+ encodeURIComponent browser feedUrl
    else feedUrl in
  match fetch browser fetchUrl with
  | Rejected e => throw e
  | Resolved response =>
      if negb (ok response)
      then throw (Error ("Failed to fetch podcast feed: "
                         +:+ String_ (Int (status response)) +:+ " "
                         +:+ statusText response))
      else parseRssFeed (text response) feedUrl
  end.

Definition feeds_set (feedUrl : string) (feed : PodcastFeed) : M PodcastSource unit :=
  update (fun self => {| feeds := Map_set (feeds self) feedUrl feed;
                         corsProxyUrl := corsProxyUrl self |}).

Definition addFeed (feedUrl : string) : M PodcastSource PodcastFeed :=
  feed <- fetchAndParseFeed feedUrl ;;
  feeds_set feedUrl feed ;;;
  ret feed.

Definition refreshFeed (feedUrl : string) : M PodcastSource PodcastFeed :=
  feed <- fetchAndParseFeed feedUrl ;;
  feeds_set feedUrl feed ;;;
  ret feed.

Definition mapFeedToCollection (feed : PodcastFeed) : MediaCollection :=
  {| coll_id := url feed;
     coll_source := Podcast;
     coll_title := feed_title feed;
     coll_description := feed_description feed;
     coll_thumbnail := feed_imageUrl feed;
     coll_contentType := Feed;
     coll_itemCount := Some (length_ (episodes feed)) |}.

Definition mapEpisode (ep : PodcastEpisode) (feed : PodcastFeed) : MediaItem :=
  {| item_id := guid ep;
     item_source := Podcast;
     item_title := ep_title ep;
     item_sourceId := audioUrl ep;
     item_thumbnail :=
       match ep_imageUrl ep with
       | Some u => Some u
       | None => feed_imageUrl feed
       end;
     item_duration := ep_duration ep;
     item_artist := Some (feed_title feed);
     item_publishedAt := ep_publishedAt ep |}.

(** [options?.cursor ? parseInt(options.cursor, 10) : 0] *)
Definition offset_of (options : option FetchMediaOptions) : number :=
  let c := options ≫= cursor in
  if truthy c then parseInt (nullish c "") else Int 0.

Definition getAvailableMedia (options : option FetchMediaOptions)
  : M PodcastSource (PaginatedResult MediaCollection) :=
  self <- this ;;
  let allFeeds := Map_values (feeds self) in
  let limit := nullish (options ≫= limit) (length_ allFeeds) in
  let offset := offset_of options in
  let page := slice allFeeds offset (add offset limit) in
  let hasMore := lt (add offset limit) (length_ allFeeds) in
  ret {| items := map mapFeedToCollection page;
         nextCursor := if hasMore then Some (String_ (add offset limit)) else None;
         total := Some (length_ allFeeds) |}.

Definition getCollectionItems (collectionId : string)
    (options : option FetchMediaOptions)
  : M PodcastSource (PaginatedResult MediaItem) :=
  self <- this ;;
  feed <-
    match Map_get (feeds self) collectionId with
    | Some feed => ret feed
    | None =>
        feed <- fetchAndParseFeed collectionId ;;
        feeds_set collectionId feed ;;;
        ret feed
    end ;;
  let limit := nullish (options ≫= limit) (Int 20) in
  let offset := offset_of options in
  let page := slice (episodes feed) offset (add offset limit) in
  let hasMore := lt (add offset limit) (length_ (episodes feed)) in
  ret {| items := map (fun ep => mapEpisode ep feed) page;
         nextCursor := if hasMore then Some (String_ (add offset limit)) else None;
         total := Some (length_ (episodes feed)) |}.

Definition PodcastSource_fetchUpdatesSince (collectionId lastSeenItemId : string)
  : M PodcastSource (list MediaItem) :=
  feed <- refreshFeed collectionId ;;
  let '(newItems, _) :=
    scan_until guid (fun ep => mapEpisode ep feed) lastSeenItemId (episodes feed) [] in
  ret (rev newItems).

Definition PodcastSource_MediaSource : MediaSource PodcastSource := {|
  sourceType := Podcast;
  displayName := "Podcasts";
  isUpdateSource := true;
  defaultUpdateIntervalMinutes := 30;
  requiresAuth := false;
  fetchUpdatesSince := PodcastSource_fetchUpdatesSince;
|}.

End Podcast.

(** ** [YouTubeSource]: the adapter that pages through the Data API *)

Record YouTubeThumbnails : Type := {
  thumb_default : option string;
  thumb_medium : option string;
  thumb_high : option string;
}.

Record YouTubeContentDetails : Type := {
  cd_videoId : string;
  cd_videoPublishedAt : string;
}.

Record YouTubePlaylistItem : Type := {
  pli_id : string;
  snippet_title : string;
  snippet_description : string;
  snippet_thumbnails : YouTubeThumbnails;
  snippet_channelTitle : string;
  snippet_publishedAt : string;
  snippet_videoId : string;            (* snippet.resourceId.videoId *)
  contentDetails : option YouTubeContentDetails;
}.

Record YouTubePlaylistItemsResponse : Type := {
  pli_items : list YouTubePlaylistItem;
  nextPageToken : option string;
  totalResults : number;               (* pageInfo.totalResults *)
}.

(** [YouTubeChannelResponse]: one uploads playlist id per item
    ([contentDetails.relatedPlaylists.uploads]). *)
Record YouTubeChannelResponse : Type := {
  channel_uploads : list string;
}.

(** The requests the listing of a channel sends, by their query
    parameters. *)
Inductive YouTubeRequest : Type :=
| ChannelsRequest (channelId : string)
| PlaylistItemsRequest (playlistId maxResults : string) (pageToken : option string).

Definition is_page_request (r : YouTubeRequest) : bool :=
  match r with
  | PlaylistItemsRequest _ _ _ => true
  | ChannelsRequest _ => false
  end.

Inductive Reply (T : Type) : Type :=
| NetworkFailure (e : exn)
| HttpError (status : Z) (statusText : string)
| Json (body : T).
Arguments NetworkFailure {T} e.
Arguments HttpError {T} status statusText.
Arguments Json {T} body.

(** The Data API as the bearer of a token sees it while the calls under
    study run. *)
Record YouTubeApi : Type := {
  channels : string -> string -> Reply YouTubeChannelResponse;
  playlistItems :
    string -> string -> string -> option string -> Reply YouTubePlaylistItemsResponse;
}.

Record YouTubeSource : Type := {
  accessToken : option string;
  uploadsPlaylistCache : gmap string string;
  (** Not a field of the class: the requests sent so far, oldest first. *)
  sent : list YouTubeRequest;
}.

Definition DEFAULT_LIMIT : number := Int 20.

Section YouTube.

Context (api : YouTubeApi).

Definition record_request (r : YouTubeRequest) : M YouTubeSource unit :=
  update (fun self => {| accessToken := accessToken self;
                         uploadsPlaylistCache := uploadsPlaylistCache self;
                         sent := sent self ++ [r] |}).

(** [fetchApi<T>(path)], the path given by the request it encodes and the
    answer by the API's reply to the token in use. *)
Definition fetchApi {T} (r : YouTubeRequest) (reply : string -> Reply T)
  : M YouTubeSource T :=
  self <- this ;;
  if negb (truthy (accessToken self))
  then throw (Error "YouTube: not authenticated")
  else
    record_request r ;;;
    match reply (nullish (accessToken self) "") with
    | NetworkFailure e => throw e
    | HttpError status statusText =>
        throw (Error ("YouTube API error: " +:+ String_ (Int status)
                      +:+ " " +:+ statusText))
    | Json body => ret body
    end.

Definition cache_set (channelId uploadsId : string) : M YouTubeSource unit :=
  update (fun self => {| accessToken := accessToken self;
                         uploadsPlaylistCache :=
                           <[channelId := uploadsId]> (uploadsPlaylistCache self);
                         sent := sent self |}).

Definition getUploadsPlaylistId (channelId : string) : M YouTubeSource string :=
  self <- this ;;
  let cached := uploadsPlaylistCache self !! channelId in
  if truthy cached then ret (nullish cached "")
  else
    data <- fetchApi (ChannelsRequest channelId)
              (fun token => channels api token channelId) ;;
    match channel_uploads data with
    | [] => throw (Error ("YouTube channel not found: " +:+ channelId))
    | uploadsId :: _ =>
        cache_set channelId uploadsId ;;;
        ret uploadsId
    end.

Definition pickThumbnail (t : YouTubeThumbnails) : option string :=
  match thumb_medium t with
  | Some u => Some u
  | None =>
      match thumb_high t with
      | Some u => Some u
      | None => thumb_default t
      end
  end.

Definition mapPlaylistItem (item : YouTubePlaylistItem) : MediaItem :=
  let videoId :=
    match contentDetails item with
    | Some cd => cd_videoId cd
    | None => snippet_videoId item
    end in
  {| item_id := videoId;
     item_source := YouTube;
     item_title := snippet_title item;
     item_sourceId := videoId;
     item_thumbnail := pickThumbnail (snippet_thumbnails item);
     item_duration := None;
     item_artist := Some (snippet_channelTitle item);
     item_publishedAt :=
       Some match contentDetails item with
            | Some cd => cd_videoPublishedAt cd
            | None => snippet_publishedAt item
            end |}.

Definition YouTubeSource_getCollectionItems (collectionId : string)
    (options : option FetchMediaOptions)
  : M YouTubeSource (PaginatedResult MediaItem) :=
  uploadsPlaylistId <- getUploadsPlaylistId collectionId ;;
  let limit := nullish (options ≫= limit) DEFAULT_LIMIT in
  let pageToken := or_undefined (options ≫= cursor) in
  data <- fetchApi
            (PlaylistItemsRequest uploadsPlaylistId (String_ limit) pageToken)
            (fun token =>
               playlistItems api token uploadsPlaylistId (String_ limit) pageToken) ;;
  ret {| items := map mapPlaylistItem (pli_items data);
         nextCursor := nextPageToken data;
         total := Some (totalResults data) |}.

(** The [while (!found)] loop of [fetchUpdatesSince], one page per
    iteration, with the [return allNew.reverse()] that follows it.  [fuel]
    bounds the iterations of the model only: the source has no bound. *)
Fixpoint page_walk (fuel : nat) (collectionId lastSeenItemId : string)
    (allNew : list MediaItem) (cursor : option string)
  : M YouTubeSource (list MediaItem) :=
  match fuel with
  | O => fun self => (OutOfFuel, self)
  | S fuel' =>
      page <- YouTubeSource_getCollectionItems collectionId
                (Some {| limit := Some (Int 20); cursor := cursor |}) ;;
      let '(allNew', found) :=
        scan_until item_id (fun item => item) lastSeenItemId (items page) allNew in
      if negb found && truthy (nextCursor page)
      then page_walk fuel' collectionId lastSeenItemId allNew' (nextCursor page)
      else ret (rev allNew')
  end.

Definition YouTubeSource_fetchUpdatesSince (fuel : nat)
    (collectionId lastSeenItemId : string) : M YouTubeSource (list MediaItem) :=
  page_walk fuel collectionId lastSeenItemId [] None.

Definition YouTubeSource_MediaSource (fuel : nat) : MediaSource YouTubeSource := {|
  sourceType := YouTube;
  displayName := "YouTube";
  isUpdateSource := true;
  defaultUpdateIntervalMinutes := 30;
  requiresAuth := true;
  fetchUpdatesSince := YouTubeSource_fetchUpdatesSince fuel;
|}.

End YouTube.

(** ** [SpotifySource]: the adapter that cannot be polled

    It overrides neither [checkForUpdates] nor [fetchUpdatesSince]. *)

Record SpotifySource : Type := {
  spotify_accessToken : option string;
}.

#[export] Instance SpotifySource_MediaSource : MediaSource SpotifySource := {|
  sourceType := Spotify;
  displayName := "Spotify";
  isUpdateSource := false;
  defaultUpdateIntervalMinutes := 0;
  requiresAuth := true;
  fetchUpdatesSince := MediaSource_fetchUpdatesSince;
|}.


(** * Notions used to state the properties *)

(** ** Durations

    The three encodings of a duration the design accepts, on trimmed text:
    a run of decimal digits (seconds), or two or three such runs separated
    by colons ([MM:SS], [HH:MM:SS]); and the seconds each one denotes. *)

Definition accepted_encoding (t : string) : bool :=
  test_digits t ||
  match split ":" t with
  | [m; s] => test_digits m && test_digits s
  | [h; m; s] => test_digits h && test_digits m && test_digits s
  | _ => false
  end.

Definition seconds_of (t : string) : Z :=
  if test_digits t then digits_value 0 t
  else
    match split ":" t with
    | [m; s] => 60 * digits_value 0 m + digits_value 0 s
    | [h; m; s] => 3600 * digits_value 0 h + 60 * digits_value 0 m + digits_value 0 s
    | _ => 0
    end.

(** ** Pagination

    A caller that starts without a cursor and passes each [nextCursor] back
    until a page comes without one.  [call i] is its [i]-th call, so the
    page size may change from one call to the next; [fuel] bounds the number
    of calls. *)

Fixpoint fetch_all_pages {Self T} (fuel : nat)
    (call : nat -> option string -> M Self (PaginatedResult T))
    (i : nat) (cursor : option string)
  : M Self (list (PaginatedResult T)) :=
  match fuel with
  | O => fun s => (OutOfFuel, s)
  | S fuel' =>
      page <- call i cursor ;;
      match nextCursor page with
      | None => ret [page]
      | Some c =>
          rest <- fetch_all_pages fuel' call (S i) (Some c) ;; ret (page :: rest)
      end
  end.

(** The page size in force when [size] is asked for and [default] stands
    in for an omitted one, as a count. *)
Definition page_count (size : option number) (default : nat) : nat :=
  match nullish size (Int (Z.of_nat default)) with
  | Int z => Z.to_nat z
  | NaN => 0
  end.

(** A page size a caller can page with: omitted, or a positive integer. *)
Definition page_size_ok (l : option number) : Prop :=
  match l with
  | None => True
  | Some (Int z) => 0 < z
  | Some NaN => False
  end.

Definition with_cursor (l : option number) (c : option string)
  : option FetchMediaOptions :=
  Some {| limit := l; cursor := c |}.

(** The page both listing methods of [PodcastSource] build from the full
    list [all], the page size in force and the cursor received. *)
Definition page_at {A B} (all : list A) (f : A -> B) (size : number)
    (cur : option string) : PaginatedResult B :=
  let offset := offset_of (with_cursor (Some size) cur) in
  {| items := map f (slice all offset (add offset size));
     nextCursor :=
       if lt (add offset size) (length_ all)
       then Some (String_ (add offset size)) else None;
     total := Some (length_ all) |}.

(** ** Order of publication

    Timestamps are ISO strings, compared as strings; a missing one counts
    as the empty string, as [getRecentMedia] takes it. *)

Definition published (i : MediaItem) : string := nullish (item_publishedAt i) "".

Fixpoint oldest_first (l : list MediaItem) : bool :=
  match l with
  | a :: (b :: _) as l' => String.leb (published a) (published b) && oldest_first l'
  | _ => true
  end.

Fixpoint newest_first (l : list MediaItem) : bool :=
  match l with
  | a :: (b :: _) as l' => String.leb (published b) (published a) && newest_first l'
  | _ => true
  end.

(** The items listed before the first one whose id is the marker. *)
Fixpoint before (marker : string) (l : list MediaItem) : list MediaItem :=
  match l with
  | [] => []
  | i :: l' => if String.eqb (item_id i) marker then [] else i :: before marker l'
  end.

Definition occurs (marker : string) (l : list MediaItem) : bool :=
  existsb (fun i => String.eqb (item_id i) marker) l.

(** ** The feed an update check inspects *)

(** The items of a parsed feed, in the order of the feed. *)
Definition listing_of (feed : PodcastFeed) : list MediaItem :=
  map (fun ep => mapEpisode ep feed) (episodes feed).

(** The adapter after [this.feeds.set(feedUrl, feed)]. *)
Definition with_feed (self : PodcastSource) (feedUrl : string) (feed : PodcastFeed)
  : PodcastSource :=
  {| feeds := Map_set (feeds self) feedUrl feed; corsProxyUrl := corsProxyUrl self |}.

(** ** The uploads listing a walk inspects

    The pages [fetchUpdatesSince] looks at when token [tok] lists playlist
    [u]: from the first page on, up to and including the page that holds the
    marker, or up to the page that names no next page. *)

Definition page_items (p : YouTubePlaylistItemsResponse) : list MediaItem :=
  map mapPlaylistItem (pli_items p).

Definition listed (pages : list YouTubePlaylistItemsResponse) : list MediaItem :=
  concat (map page_items pages).

Fixpoint inspected (api : YouTubeApi) (fuel : nat) (tok u marker : string)
    (pageToken : option string) : option (list YouTubePlaylistItemsResponse) :=
  match fuel with
  | O => None
  | S fuel' =>
      match playlistItems api tok u "20" pageToken with
      | Json p =>
          if occurs marker (page_items p) || negb (truthy (nextPageToken p))
          then Some [p]
          else
            match inspected api fuel' tok u marker (nextPageToken p) with
            | Some ps => Some (p :: ps)
            | None => None
            end
      | _ => None
      end
  end.

Definition page_requests (self : YouTubeSource) : nat :=
  length (List.filter is_page_request (sent self)).

(** ** Sample collaborators *)

(** A browser with no network and no documents. *)
Definition offline : Browser := {|
  fetch := fun _ => Rejected (TypeError "Failed to fetch");
  parseChannel := fun _ => None;
  toISOString := fun _ => None;
  encodeURIComponent := fun s => s;
  Number_other := fun _ => NaN;
|}.

Definition rss_item (guid pubDate audio : string) (duration : option string) : RssItem := {|
  rss_enclosure_url := Some audio;
  rss_guid := Some guid;
  rss_title := Some guid;
  rss_description := None;
  rss_pubDate := Some pubDate;
  rss_href := None;
  rss_itunes_duration := duration;
  rss_duration := None;
|}.

(** The feed of the adapter's test suite: three episodes, newest first. *)
Definition sample_channel : RssChannel := {|
  chan_title := Some "Test Podcast";
  chan_description := Some "A test podcast feed";
  chan_image_url := Some "https://example.com/podcast-art.jpg";
  chan_href := None;
  chan_items :=
    [ rss_item "ep-3" "Wed, 03 Jul 2024 12:00:00 GMT" "https://example.com/ep3.mp3" (Some "1:30:00");
      rss_item "ep-2" "Tue, 02 Jul 2024 12:00:00 GMT" "https://example.com/ep2.mp3" (Some "45:30");
      rss_item "ep-1" "Mon, 01 Jul 2024 12:00:00 GMT" "https://example.com/ep1.mp3" (Some "3600") ];
|}.

(** The same three episodes listed oldest first. *)
Definition archive_channel : RssChannel := {|
  chan_title := Some "Archive";
  chan_description := None;
  chan_image_url := None;
  chan_href := None;
  chan_items := rev (chan_items sample_channel);
|}.

(** One episode whose duration text is not a duration. *)
Definition odd_channel : RssChannel := {|
  chan_title := Some "Odd";
  chan_description := None;
  chan_image_url := None;
  chan_href := None;
  chan_items :=
    [ rss_item "ep-x" "Mon, 01 Jul 2024 12:00:00 GMT" "https://example.com/x.mp3" (Some "abc") ];
|}.

(** A browser that serves, at each URL, a document named by the URL. *)
Definition sample_browser : Browser := {|
  fetch := fun u =>
    Resolved {| ok := true; status := 200; statusText := "OK"; text := u |};
  parseChannel := fun xml =>
    if String.eqb xml "https://example.com/feed.xml" then Some sample_channel
    else if String.eqb xml "https://example.com/archive.xml" then Some archive_channel
    else if String.eqb xml "https://example.com/odd.xml" then Some odd_channel
    else None;
  toISOString := fun d =>
    if String.eqb d "Wed, 03 Jul 2024 12:00:00 GMT" then Some "2024-07-03T12:00:00.000Z"
    else if String.eqb d "Tue, 02 Jul 2024 12:00:00 GMT" then Some "2024-07-02T12:00:00.000Z"
    else if String.eqb d "Mon, 01 Jul 2024 12:00:00 GMT" then Some "2024-07-01T12:00:00.000Z"
    else None;
  encodeURIComponent := fun s => s;
  Number_other := fun _ => NaN;
|}.

Definition fresh_podcasts : PodcastSource := {| feeds := []; corsProxyUrl := None |}.

Definition signed_out : SpotifySource := {| spotify_accessToken := None |}.

(** The adapter once the sample feed has been added. *)
Definition sample_podcasts : PodcastSource :=
  snd (addFeed sample_browser "https://example.com/feed.xml" fresh_podcasts).

(** ** What a [YouTubeSource] shows of itself to a listing of channel [c]:
    its token, and the playlist the channel resolves to. *)


(** Signed in with token [tok], and channel [c] resolving to playlist [u]. *)
Definition ready (api : YouTubeApi) (c tok u : string) (self : YouTubeSource) : Prop :=
  accessToken self = Some tok
  /\ tok <> ""
  /\ fst (getUploadsPlaylistId api c self) = Ok u.

(** ** Sample channels *)

Definition no_thumbnails : YouTubeThumbnails :=
  {| thumb_default := None; thumb_medium := None; thumb_high := None |}.

Definition upload (videoId publishedAt : string) : YouTubePlaylistItem := {|
  pli_id := "pli-" +:+ videoId;
  snippet_title := videoId;
  snippet_description := "";
  snippet_thumbnails := no_thumbnails;
  snippet_channelTitle := "Ch";
  snippet_publishedAt := publishedAt;
  snippet_videoId := videoId;
  contentDetails :=
    Some {| cd_videoId := videoId; cd_videoPublishedAt := publishedAt |};
|}.

(** The channel of the adapter's test suite: one page, three uploads,
    newest first. *)
Definition test_channel : YouTubeApi := {|
  channels := fun _ _ => Json {| channel_uploads := ["UU789"] |};
  playlistItems := fun _ _ _ _ =>
    Json {| pli_items :=
              [ upload "vid-new-2" "2024-08-03T00:00:00Z";
                upload "vid-new-1" "2024-08-02T00:00:00Z";
                upload "vid-last" "2024-08-01T00:00:00Z" ];
            nextPageToken := None;
            totalResults := Int 3 |};
|}.

(** A channel whose uploads fill [n] pages of one video each; the token of
    page [i] is the decimal of [i]. *)
Definition page_index (pageToken : option string) : Z :=
  match pageToken with
  | Some t => ToIntegerOrInfinity (parseInt t)
  | None => 0
  end.

Definition long_channel (n : nat) : YouTubeApi := {|
  channels := fun _ _ => Json {| channel_uploads := ["UU789"] |};
  playlistItems := fun _ _ _ pageToken =>
    let i := page_index pageToken in
    Json {| pli_items := [upload ("vid-" +:+ String_ (Int i)) "2024-08-01T00:00:00Z"];
            nextPageToken :=
              if i + 1 <? Z.of_nat n then Some (String_ (Int (i + 1))) else None;
            totalResults := Int (Z.of_nat n) |};
|}.

Definition signed_in : YouTubeSource :=
  {| accessToken := Some "yt-token"; uploadsPlaylistCache := ∅; sent := [] |}.

(** ** The page cap of the design

    [walk_capped cap]: no call of [YouTubeSource.checkForUpdates] that
    returns has requested more than [cap] pages. *)
Definition walk_capped (cap : nat) : Prop :=
  forall (api : YouTubeApi) (fuel : nat) (c marker : string)
         (self self' : YouTubeSource) (result : list MediaItem),
    checkForUpdates (H := YouTubeSource_MediaSource api fuel) c marker self
      = (Ok result, self') ->
    (page_requests self' - page_requests self <= cap)%nat.

(** * The rest of the adapters *)

(** ** [PodcastSource]: the feed store and the recency listing *)

(** [Map.prototype.delete] and [Map.prototype.has]. *)
Fixpoint Map_delete {V} (m : Map V) (k : string) : Map V :=
  match m with
  | [] => []
  | (k', v') :: m' =>
      if String.eqb k' k then m' else (k', v') :: Map_delete m' k
  end.

Definition Map_has {V} (m : Map V) (k : string) : bool :=
  match Map_get m k with
  | Some _ => true
  | None => false
  end.

Definition Map_keys {V} (m : Map V) : list string := m.*1.

(** [new PodcastSource(corsProxyUrl)] *)
Definition PodcastSource_new (corsProxyUrl : option string) : PodcastSource :=
  {| feeds := []; corsProxyUrl := corsProxyUrl |}.

Definition setCorsProxyUrl (proxy : option string) : M PodcastSource unit :=
  update (fun self => {| feeds := feeds self; corsProxyUrl := proxy |}).

(** [removeFeed]: [Map.delete] answers whether the key was there. *)
Definition removeFeed (feedUrl : string) : M PodcastSource bool :=
  self <- this ;;
  update (fun self => {| feeds := Map_delete (feeds self) feedUrl;
                         corsProxyUrl := corsProxyUrl self |}) ;;;
  ret (Map_has (feeds self) feedUrl).

Fixpoint restoreFeeds (stored : list PodcastFeed) : M PodcastSource unit :=
  match stored with
  | [] => ret tt
  | feed :: rest => feeds_set (url feed) feed ;;; restoreFeeds rest
  end.

Definition getFeeds : M PodcastSource (list PodcastFeed) :=
  self <- this ;;
  ret (Map_values (feeds self)).

Definition PodcastSource_getAvailableMediaTypes : list MediaContentType :=
  [Episode; Feed].

Definition PodcastSource_isAuthenticated : M PodcastSource bool := ret true.

(** [Array.prototype.sort(cmp)] with a consistent comparator: the stable
    sort, each element placed behind those that do not have to come after
    it. *)
Fixpoint insert_by {A} (cmp : A -> A -> Z) (x : A) (l : list A) : list A :=
  match l with
  | [] => [x]
  | y :: l' => if 0 <? cmp y x then x :: l else y :: insert_by cmp x l'
  end.

Definition Array_sort {A} (cmp : A -> A -> Z) (l : list A) : list A :=
  fold_left (fun sorted x => insert_by cmp x sorted) l [].

Section PodcastRecent.

(** [a.localeCompare(b)]: negative, zero or positive. *)
Context (localeCompare : string -> string -> Z).

(** [since && ep.publishedAt && ep.publishedAt <= since]: the episodes the
    loop of [getRecentMedia] passes over. *)
Definition not_newer (since : option string) (ep : PodcastEpisode) : bool :=
  truthy since && truthy (ep_publishedAt ep)
  && String.leb (nullish (ep_publishedAt ep) "") (nullish since "").

Fixpoint collect_episodes (since : option string) (feed : PodcastFeed)
    (eps : list PodcastEpisode) (allEpisodes : list (PodcastEpisode * PodcastFeed))
  : list (PodcastEpisode * PodcastFeed) :=
  match eps with
  | [] => allEpisodes
  | ep :: rest =>
      if not_newer since ep then collect_episodes since feed rest allEpisodes
      else collect_episodes since feed rest (allEpisodes ++ [(ep, feed)])
  end.

Fixpoint collect_feeds (since : option string) (all : list PodcastFeed)
    (allEpisodes : list (PodcastEpisode * PodcastFeed))
  : list (PodcastEpisode * PodcastFeed) :=
  match all with
  | [] => allEpisodes
  | feed :: rest =>
      collect_feeds since rest (collect_episodes since feed (episodes feed) allEpisodes)
  end.

(** The comparator of the sort: newest first. *)
Definition by_date_desc (a b : PodcastEpisode * PodcastFeed) : Z :=
  let aDate := nullish (ep_publishedAt (fst a)) "" in
  let bDate := nullish (ep_publishedAt (fst b)) "" in
  localeCompare bDate aDate.

Definition PodcastSource_getRecentMedia (since : option string)
    (options : option FetchMediaOptions)
  : M PodcastSource (PaginatedResult MediaItem) :=
  self <- this ;;
  let allEpisodes :=
    Array_sort by_date_desc (collect_feeds since (Map_values (feeds self)) []) in
  let limit := nullish (options ≫= limit) (Int 20) in
  let offset := offset_of options in
  let page := slice allEpisodes offset (add offset limit) in
  let hasMore := lt (add offset limit) (length_ allEpisodes) in
  ret {| items := map (fun ef => mapEpisode (fst ef) (snd ef)) page;
         nextCursor := if hasMore then Some (String_ (add offset limit)) else None;
         total := Some (length_ allEpisodes) |}.

End PodcastRecent.

(** ** [MediaSource.search]: the default an adapter inherits *)

Definition MediaSource_search {S} (_query : string)
    (_options : option FetchMediaOptions) : M S (PaginatedResult MediaItem) :=
  ret {| items := []; nextCursor := None; total := None |}.

(** ** [YouTubeSource]: the token *)

Definition YouTubeSource_new : YouTubeSource :=
  {| accessToken := None; uploadsPlaylistCache := ∅; sent := [] |}.

Definition YouTubeSource_setAccessToken (token : option string) : M YouTubeSource unit :=
  update (fun self => {| accessToken := token;
                         uploadsPlaylistCache := uploadsPlaylistCache self;
                         sent := sent self |}).

(** [this.accessToken !== null] *)
Definition YouTubeSource_isAuthenticated : M YouTubeSource bool :=
  self <- this ;;
  ret (match accessToken self with Some _ => true | None => false end).

(** ** [SpotifySource]: the listings *)

(** [a <= b] and [a >= b] on numbers. *)
Definition number_le (a b : number) : bool :=
  match a, b with
  | Int x, Int y => x <=? y
  | _, _ => false
  end.

(** [Math.round(n / d)] for an integer [n] and a positive integer [d]: the
    nearest integer, a half rounded up.  (Up to [MAX_SAFE_INTEGER] the
    quotient of the doubles rounds as the exact quotient does.) *)
Definition round_div (n : number) (d : Z) : number :=
  match n with
  | Int z => Int ((2 * z + d) / (2 * d))
  | NaN => NaN
  end.

Record SpotifyImage : Type := {
  image_url : string;
  image_width : number;
  image_height : number;
}.

Record SpotifyPlaylistObject : Type := {
  playlist_id : string;
  playlist_name : string;
  playlist_description : string;
  playlist_images : list SpotifyImage;
  playlist_tracks_total : number;
}.

Record SpotifyPlaylistResponse : Type := {
  playlists_items : list SpotifyPlaylistObject;
  playlists_next : option string;
  playlists_total : number;
}.

Record SpotifyTrack : Type := {
  track_id : string;
  track_uri : string;
  track_name : string;
  track_duration_ms : number;
  track_artists : list string;         (* artists[i].name *)
  track_album_images : list SpotifyImage;
}.

Record SpotifyTrackItem : Type := {
  added_at : string;
  track : option SpotifyTrack;
}.

Record SpotifyPlaylistTracksResponse : Type := {
  tracks_items : list SpotifyTrackItem;
  tracks_next : option string;
  tracks_total : number;
}.

Record SpotifyRecentlyPlayedResponse : Type := {
  recent_items : list (option SpotifyTrack);   (* items[i].track *)
  recent_next : option string;
}.

Record SpotifySearchResponse : Type := {
  search_items : list (option SpotifyTrack);   (* tracks.items *)
  search_next : option string;
  search_total : number;
}.

(** The Web API as the bearer of a token sees it; the other arguments are
    the query parameters, as the request URL spells them. *)
Record SpotifyApi : Type := {
  me_playlists : string -> string -> string -> Reply SpotifyPlaylistResponse;
  playlist_tracks :
    string -> string -> string -> string -> Reply SpotifyPlaylistTracksResponse;
  recently_played : string -> string -> string -> Reply SpotifyRecentlyPlayedResponse;
  search_tracks : string -> string -> string -> string -> Reply SpotifySearchResponse;
}.

Definition SpotifySource_setAccessToken (token : option string) : M SpotifySource unit :=
  update (fun _ => {| spotify_accessToken := token |}).

Definition SpotifySource_isAuthenticated : M SpotifySource bool :=
  self <- this ;;
  ret (match spotify_accessToken self with Some _ => true | None => false end).

Section Spotify.

Context (api : SpotifyApi).

Definition SpotifySource_fetchApi {T} (reply : string -> Reply T) : M SpotifySource T :=
  self <- this ;;
  if negb (truthy (spotify_accessToken self))
  then throw (Error "Spotify: not authenticated")
  else
    match reply (nullish (spotify_accessToken self) "") with
    | NetworkFailure e => throw e
    | HttpError status statusText =>
        throw (Error ("Spotify API error: " +:+ String_ (Int status)
                      +:+ " " +:+ statusText))
    | Json body => ret body
    end.

(** [images.find(img => img.width >= 200 && img.width <= 400)] *)
Definition is_medium (img : SpotifyImage) : bool :=
  number_le (Int 200) (image_width img) && number_le (image_width img) (Int 400).

Definition SpotifySource_pickThumbnail (images : list SpotifyImage) : option string :=
  match images with
  | [] => None
  | first :: _ =>
      match List.find is_medium images with
      | Some medium => Some (image_url medium)
      | None => Some (image_url first)
      end
  end.

Definition mapPlaylist (playlist : SpotifyPlaylistObject) : MediaCollection :=
  {| coll_id := playlist_id playlist;
     coll_source := Spotify;
     coll_title := playlist_name playlist;
     coll_description := or_undefined (Some (playlist_description playlist));
     coll_thumbnail := SpotifySource_pickThumbnail (playlist_images playlist);
     coll_contentType := Playlist;
     coll_itemCount := Some (playlist_tracks_total playlist) |}.

Definition mapRecentTrack (t : SpotifyTrack) : MediaItem :=
  {| item_id := track_id t;
     item_source := Spotify;
     item_title := track_name t;
     item_sourceId := track_uri t;
     item_thumbnail := SpotifySource_pickThumbnail (track_album_images t);
     item_duration := Some (round_div (track_duration_ms t) 1000);
     item_artist := Some (String.concat ", " (track_artists t));
     item_publishedAt := None |}.

(** [mapTrack] is applied behind the filter that drops the items without a
    track, so it maps the track together with the item's [added_at]. *)
Definition mapTrack (added : string) (t : SpotifyTrack) : MediaItem :=
  {| item_id := track_id t;
     item_source := Spotify;
     item_title := track_name t;
     item_sourceId := track_uri t;
     item_thumbnail := SpotifySource_pickThumbnail (track_album_images t);
     item_duration := Some (round_div (track_duration_ms t) 1000);
     item_artist := Some (String.concat ", " (track_artists t));
     item_publishedAt := Some added |}.

(** [data.items.filter(item => item.track !== null).map(item => mapTrack(item))] *)
Fixpoint map_tracks (its : list SpotifyTrackItem) : list MediaItem :=
  match its with
  | [] => []
  | item :: rest =>
      match track item with
      | Some t => mapTrack (added_at item) t :: map_tracks rest
      | None => map_tracks rest
      end
  end.

Fixpoint map_recent_tracks (ts : list (option SpotifyTrack)) : list MediaItem :=
  match ts with
  | [] => []
  | Some t :: rest => mapRecentTrack t :: map_recent_tracks rest
  | None :: rest => map_recent_tracks rest
  end.

(** [next ? String(offset + limit) : undefined] *)
Definition next_offset (next : option string) (offset limit : number) : option string :=
  if truthy next then Some (String_ (add offset limit)) else None.

Definition SpotifySource_getAvailableMedia (options : option FetchMediaOptions)
  : M SpotifySource (PaginatedResult MediaCollection) :=
  let limit := nullish (options ≫= limit) DEFAULT_LIMIT in
  let offset := offset_of options in
  data <- SpotifySource_fetchApi
            (fun token => me_playlists api token (String_ limit) (String_ offset)) ;;
  ret {| items := map mapPlaylist (playlists_items data);
         nextCursor := next_offset (playlists_next data) offset limit;
         total := Some (playlists_total data) |}.

Definition SpotifySource_getCollectionItems (collectionId : string)
    (options : option FetchMediaOptions)
  : M SpotifySource (PaginatedResult MediaItem) :=
  let limit := nullish (options ≫= limit) DEFAULT_LIMIT in
  let offset := offset_of options in
  data <- SpotifySource_fetchApi
            (fun token =>
               playlist_tracks api token collectionId (String_ limit) (String_ offset)) ;;
  ret {| items := map_tracks (tracks_items data);
         nextCursor := next_offset (tracks_next data) offset limit;
         total := Some (tracks_total data) |}.

Definition SpotifySource_getRecentMedia (_since : option string)
    (options : option FetchMediaOptions)
  : M SpotifySource (PaginatedResult MediaItem) :=
  let limit := nullish (options ≫= limit) DEFAULT_LIMIT in
  let offset := offset_of options in
  data <- SpotifySource_fetchApi
            (fun token => recently_played api token (String_ limit) (String_ offset)) ;;
  ret {| items := map_recent_tracks (recent_items data);
         nextCursor := next_offset (recent_next data) offset limit;
         total := None |}.

Definition SpotifySource_search (query : string) (options : option FetchMediaOptions)
  : M SpotifySource (PaginatedResult MediaItem) :=
  let limit := nullish (options ≫= limit) DEFAULT_LIMIT in
  let offset := offset_of options in
  data <- SpotifySource_fetchApi
            (fun token =>
               search_tracks api token query (String_ limit) (String_ offset)) ;;
  ret {| items := map_recent_tracks (search_items data);
         nextCursor := next_offset (search_next data) offset limit;
         total := Some (search_total data) |}.

End Spotify.

(** ** [formatTimeAgo] of [RecentVideos.tsx] *)

Definition number_sub (a b : number) : number :=
  match a, b with
  | Int x, Int y => Int (x - y)
  | _, _ => NaN
  end.

(** [Math.floor(n / d)] for an integer [n] and a positive integer [d]. *)
Definition floor_div (n : number) (d : Z) : number :=
  match n with
  | Int z => Int (z / d)
  | NaN => NaN
  end.

(** [now] is [Date.now()], [time] is [new Date(isoDate).getTime()] ([NaN]
    for a date that does not parse) and [localeDate] is
    [new Date(isoDate).toLocaleDateString()]. *)
Definition formatTimeAgo (now time : number) (localeDate : string) : string :=
  let seconds := floor_div (number_sub now time) 1000 in
  if lt seconds (Int 60) then "just now"
  else
    let minutes := floor_div seconds 60 in
    if lt minutes (Int 60) then String_ minutes +:+ "m ago"
    else
      let hours := floor_div minutes 60 in
      if lt hours (Int 24) then String_ hours +:+ "h ago"
      else
        let days := floor_div hours 24 in
        if lt days (Int 7) then String_ days +:+ "d ago"
        else
          let weeks := floor_div days 7 in
          if lt weeks (Int 4) then String_ weeks +:+ "w ago"
          else localeDate.

(** * Notions used to state the further properties *)

(** The store of a [PodcastSource] as a [Map] keeps it: no URL twice, and
    each feed filed under its own [url]. *)
Definition well_keyed (self : PodcastSource) : Prop :=
  NoDup (Map_keys (feeds self))
  /\ Forall (fun kv => url (snd kv) = fst kv) (feeds self).

(** The items of a channel that carry audio, and whether the date of an
    item can be turned into a timestamp. *)
Definition has_audio (item : RssItem) : bool := truthy (rss_enclosure_url item).

Definition date_ok (browser : Browser) (item : RssItem) : bool :=
  negb (truthy (rss_pubDate item))
  || match toISOString browser (nullish (rss_pubDate item) "") with
     | Some _ => true
     | None => false
     end.

(** The episodes of the stored feeds that [getRecentMedia] keeps, feed by
    feed. *)
Definition recent_candidates (since : option string) (all : list PodcastFeed)
  : list (PodcastEpisode * PodcastFeed) :=
  flat_map
    (fun feed =>
       map (fun ep => (ep, feed))
         (List.filter (fun ep => negb (not_newer since ep)) (episodes feed)))
    all.

(** Each element is followed by one the comparator lets come after it. *)
Fixpoint ordered_by {A} (cmp : A -> A -> Z) (l : list A) : Prop :=
  match l with
  | a :: (b :: _) as l' => cmp a b <= 0 /\ ordered_by cmp l'
  | _ => True
  end.

(** A browser behind a CORS proxy: the sample feed is served at the proxy
    URL only. *)
Definition proxied_browser : Browser := {|
  fetch := fun u =>
    if String.eqb u "https://proxy.example.com/?url=https%3A%2F%2Fexample.com%2Ffeed.xml"
    then Resolved {| ok := true; status := 200; statusText := "OK";
                     text := "https://example.com/feed.xml" |}
    else Resolved {| ok := false; status := 403; statusText := "Forbidden"; text := "" |};
  parseChannel := parseChannel sample_browser;
  toISOString := toISOString sample_browser;
  encodeURIComponent := fun s =>
    if String.eqb s "https://example.com/feed.xml"
    then "https%3A%2F%2Fexample.com%2Ffeed.xml" else s;
  Number_other := fun _ => NaN;
|}.

(** A page cut at offset [o] with page size [l] from a list of [len]
    items. *)
Definition page_within {T} (page : PaginatedResult T) (len o l : Z) : Prop :=
  Z.of_nat (length (items page)) = Z.min l (Z.max 0 (len - o))
  /\ (nextCursor page = None <-> len <= o + l)
  /\ (forall c, nextCursor page = Some c -> c = String_ (Int (o + l)))
  /\ total page = Some (Int len).

(** What an episode keeps of the item it was parsed from. *)
Definition episode_of_item (browser : Browser) (item : RssItem) (ep : PodcastEpisode)
  : Prop :=
  rss_enclosure_url item = Some (audioUrl ep) /\ audioUrl ep <> ""
  /\ guid ep = nullish (rss_guid item) (audioUrl ep)
  /\ ep_title ep = nullish (rss_title item) "Untitled Episode"
  /\ ep_description ep = rss_description item
  /\ ep_imageUrl ep = rss_href item
  /\ ep_duration ep
     = (let text := getElementByTagNameNS_duration item in
        if truthy text then Some (parseDuration browser (nullish text "")) else None)
  /\ ep_publishedAt ep
     = (if truthy (rss_pubDate item)
        then toISOString browser (nullish (rss_pubDate item) "") else None).

(** The comparator of [getRecentMedia], on the items it returns. *)
Definition newer_first (localeCompare : string -> string -> Z) (a b : MediaItem) : Z :=
  localeCompare (published b) (published a).

(** [a.localeCompare(b)] by code units, for the samples. *)
Definition compare_code_units (a b : string) : Z :=
  match String.compare a b with
  | Lt => -1
  | Eq => 0
  | Gt => 1
  end.

(** A consistent comparator, as [Array.prototype.sort] wants one: the two
    ways round agree, and coming no later is transitive. *)
Definition consistent {A} (cmp : A -> A -> Z) : Prop :=
  (forall a b, 0 < cmp a b <-> cmp b a < 0)
  /\ (forall a b c, cmp a b <= 0 -> cmp b c <= 0 -> cmp a c <= 0).

(** A playlist of the Web API for the samples: two entries on the first
    page, the second of which has lost its track, and more to come. *)
Definition sample_track : SpotifyTrack := {|
  track_id := "t1";
  track_uri := "spotify:track:t1";
  track_name := "Song One";
  track_duration_ms := Int 210500;
  track_artists := ["Artist A"; "Artist B"];
  track_album_images :=
    [ {| image_url := "https://img.example/640.jpg";
         image_width := Int 640; image_height := Int 640 |};
      {| image_url := "https://img.example/300.jpg";
         image_width := Int 300; image_height := Int 300 |} ];
|}.

Definition sample_spotify : SpotifyApi := {|
  me_playlists := fun _ _ _ => HttpError 500 "Server Error";
  playlist_tracks := fun _ _ _ _ =>
    Json {| tracks_items :=
              [ {| added_at := "2024-01-01T00:00:00Z"; track := Some sample_track |};
                {| added_at := "2024-01-02T00:00:00Z"; track := None |} ];
            tracks_next := Some "https://api.spotify.com/v1/playlists/pl1/tracks?offset=2";
            tracks_total := Int 5 |};
  recently_played := fun _ _ _ => HttpError 500 "Server Error";
  search_tracks := fun _ _ _ _ => HttpError 500 "Server Error";
|}.

Definition spotify_signed_in : SpotifySource := {| spotify_accessToken := Some "sp-token" |}.

(** The numbers the model holds exactly: [NaN] and the safe integers
    ([Number.isSafeInteger]).  Sums of such numbers that are such numbers
    are exact, and [String] prints them in plain decimal. *)
Definition representable (n : number) : Prop :=
  match n with
  | Int z => - MAX_SAFE_INTEGER <= z <= MAX_SAFE_INTEGER
  | NaN => True
  end.


(** * Properties *)

(** ** Facts about the JavaScript operations *)

Section JsFacts.

Example parseInt_examples :
  Js.parseInt "2" = Js.Int 2 /\ Js.parseInt "  -12px" = Js.Int (-12)
  /\ Js.parseInt "abc" = Js.NaN /\ Js.parseInt "" = Js.NaN
  /\ Js.String_ (Js.Int 40) = "40" /\ Js.split ":" "1:30:00" = ["1"; "30"; "00"]
  /\ Js.split ":" "" = [""] /\ Js.trim "  45:30 " = "45:30"
  /\ Js.slice [1; 2; 3] (Js.Int 2) (Js.Int 4) = [3]
  /\ Js.slice [1; 2; 3] Js.NaN Js.NaN = []
  /\ Js.slice [1; 2; 3] (Js.Int (-2)) (Js.Int 9) = [2; 3].
Proof. repeat split; reflexivity. Qed.

Lemma digit_not_white c : is_digit c = true -> is_white c = false.
Proof.
  destruct c as [[] [] [] [] [] [] [] []]; try reflexivity;
    vm_compute; discriminate.
Qed.

Lemma digit_not_sign c r :
  is_digit c = true ->
  match String c r with
  | String "-" r' => (true, r')
  | String "+" r' => (false, r')
  | _ => (false, String c r)
  end = (false, String c r).
Proof.
  destruct c as [[] [] [] [] [] [] [] []]; try reflexivity;
    vm_compute; discriminate.
Qed.

Lemma trimStart_digit c r : is_digit c = true -> trimStart (String c r) = String c r.
Proof. intros H. simpl. by rewrite (digit_not_white _ H). Qed.

(** [parseInt] on a string that starts with a digit reads its digits. *)
Lemma parseInt_digit c r :
  is_digit c = true -> parseInt (String c r) = Int (digits_value 0 (String c r)).
Proof.
  intros H. unfold parseInt.
  rewrite (trimStart_digit _ _ H), (digit_not_sign _ _ H).
  unfold starts_with_digit. by rewrite H.
Qed.

Lemma parseInt_test_digits s :
  test_digits s = true -> parseInt s = Int (digits_value 0 s).
Proof.
  destruct s as [|c r]; [discriminate|].
  simpl. intros [H _]%andb_prop. by apply parseInt_digit.
Qed.

Lemma rev_app_rev_app s1 s2 s3 :
  String.rev_app (String.rev_app s1 s2) s3 = String.rev_app s2 (s1 +:+ s3).
Proof.
  revert s2. induction s1 as [|c s1 IH]; intros s2; [done|].
  cbn [String.rev_app]. by rewrite IH.
Qed.

Lemma app_empty_r s : s +:+ "" = s.
Proof.
  induction s as [|c s IH]; [done|].
  change (String c s +:+ "") with (String c (s +:+ "")). by rewrite IH.
Qed.

Lemma rev_rev s : String.rev (String.rev s) = s.
Proof.
  unfold String.rev. rewrite rev_app_rev_app. cbn [String.rev_app].
  apply app_empty_r.
Qed.

Lemma all_digits_rev_app s1 s2 :
  all_digits (String.rev_app s1 s2) = all_digits s1 && all_digits s2.
Proof.
  revert s2. induction s1 as [|c s1 IH]; intros s2; [done|].
  cbn [String.rev_app all_digits]. rewrite IH. cbn [all_digits].
  by destruct (is_digit c), (all_digits s1), (all_digits s2).
Qed.

Lemma trimStart_all_digits s : all_digits s = true -> trimStart s = s.
Proof.
  destruct s as [|c r]; [done|].
  cbn [all_digits]. intros [H _]%andb_prop. by apply trimStart_digit.
Qed.

Lemma trim_all_digits s : all_digits s = true -> trim s = s.
Proof.
  intros H. unfold trim, trimEnd.
  rewrite (trimStart_all_digits s H).
  rewrite trimStart_all_digits; [apply rev_rev|].
  unfold String.rev. rewrite all_digits_rev_app, H. done.
Qed.

Lemma test_digits_all s : test_digits s = true -> all_digits s = true /\ s <> "".
Proof. destruct s; [discriminate|]. done. Qed.

(** Decimal printing, read back by [digits_value]. *)
Lemma digits_value_pretty_go (x : N) :
  forall s, exists k : Z, 0 <= k /\ forall acc,
    digits_value acc (pretty_N_go x s) = digits_value (acc * 10 ^ k + Z.of_N x) s.
Proof.
  induction (N.lt_wf_0 x) as [x _ IH]. intros s.
  destruct (decide (x = 0%N)) as [->|Hx].
  - exists 0. split; [lia|]. intros acc. rewrite pretty_N_go_0. f_equal. lia.
  - rewrite pretty_N_go_step by lia.
    destruct (IH (x `div` 10)%N) with (s := String (pretty_N_char (x `mod` 10)) s)
      as (k & Hk & Hgo).
    { apply N.div_lt; lia. }
    exists (k + 1). split; [lia|]. intros acc. rewrite Hgo.
    assert (Hm : (x `mod` 10 < 10)%N) by (apply N.mod_lt; lia).
    assert (Hd : is_digit (pretty_N_char (x `mod` 10)) = true
                 /\ digit_value (pretty_N_char (x `mod` 10)) = Z.of_N (x `mod` 10)).
    { destruct (x `mod` 10)%N as [|p] eqn:E; [done|].
      do 4 (destruct p as [p|p|]; try done); lia. }
    destruct Hd as [Hd1 Hd2]. cbn [digits_value]. rewrite Hd1, Hd2. f_equal.
    rewrite Z.pow_add_r by lia.
    pose proof (N.div_mod x 10 ltac:(lia)) as Hdm.
    rewrite N2Z.inj_div, N2Z.inj_mod in *. 
    pose proof (Z.div_mod (Z.of_N x) 10 ltac:(lia)). 
    change (Z.of_N 10) with 10. lia.
Qed.

Lemma pretty_go_head (x : N) :
  forall s, (0 < x)%N ->
    exists c r, pretty_N_go x s = String c r /\ is_digit c = true.
Proof.
  induction (N.lt_wf_0 x) as [x _ IH]. intros s Hx.
  rewrite pretty_N_go_step by done.
  destruct (decide (x `div` 10 = 0)%N) as [E|E].
  - rewrite E, pretty_N_go_0. eexists _, _. split; [done|].
    assert (Hm : (x `mod` 10 < 10)%N) by (apply N.mod_lt; lia).
    destruct (x `mod` 10)%N as [|p]; [done|].
    do 4 (destruct p as [p|p|]; try done); lia.
  - apply IH; [apply N.div_lt; lia | by apply N.neq_0_lt_0].
Qed.

(** A cursor printed by [String] is read back by [parseInt]. *)
Lemma parseInt_String (z : Z) :
  0 <= z -> parseInt (String_ (Int z)) = Int z /\ truthy (Some (String_ (Int z))) = true.
Proof.
  intros Hz. cbn [String_]. destruct z as [|p|p]; [done| |lia].
  unfold pretty, pretty_Z, pretty, pretty_positive, pretty, pretty_N.
  rewrite decide_False by done.
  destruct (pretty_go_head (N.pos p) "" ltac:(lia)) as (c & r & E & Hc).
  destruct (digits_value_pretty_go (N.pos p) "") as (k & _ & Hgo).
  specialize (Hgo 0). rewrite E in *. split; [|done].
  rewrite (parseInt_digit _ _ Hc), Hgo. cbn [digits_value]. f_equal.
Qed.

(** [slice] between two offsets inside the non-negative range. *)
Lemma slice_nat {A} (l : list A) (o k : nat) :
  slice l (Int (Z.of_nat o)) (Int (Z.of_nat o + Z.of_nat k)) = take k (drop o l).
Proof.
  unfold slice, relative_index. cbn [ToIntegerOrInfinity].
  rewrite !(proj2 (Z.ltb_ge _ _)) by lia.
  destruct (decide (o <= length l)%nat) as [Ho|Ho].
  - rewrite (Z.min_l (Z.of_nat o)) by lia. rewrite Nat2Z.id.
    destruct (decide (o + k <= length l)%nat).
    + rewrite Z.min_l by lia. f_equal. lia.
    + rewrite Z.min_r by lia. rewrite !take_ge; [done|..];
        rewrite length_drop; lia.
  - rewrite !Z.min_r by lia. rewrite Z.sub_diag. cbn [Z.to_nat take].
    rewrite (drop_ge l o) by lia. by destruct k.
Qed.

Lemma slice_NaN {A} (l : list A) (n : number) : slice l NaN (add NaN n) = [].
Proof. unfold slice. cbn. by rewrite Z.sub_diag. Qed.

Lemma Map_get_set {V} (m : Map V) k v : Map_get (Map_set m k v) k = Some v.
Proof.
  induction m as [|[k' v'] m IH]; cbn.
  - by rewrite String.eqb_refl.
  - destruct (String.eqb_spec k' k); cbn.
    + by rewrite String.eqb_refl.
    + by destruct (String.eqb_spec k' k).
Qed.

Lemma Map_get_set_ne {V} (m : Map V) k k' v :
  k' <> k -> Map_get (Map_set m k v) k' = Map_get m k'.
Proof.
  intros Hne. induction m as [|[k0 v0] m IH]; cbn.
  - by destruct (String.eqb_spec k k').
  - destruct (String.eqb_spec k0 k) as [->|]; cbn.
    + by destruct (String.eqb_spec k k').
    + by rewrite IH.
Qed.

Lemma Map_set_set {V} (m : Map V) k v : Map_set (Map_set m k v) k v = Map_set m k v.
Proof.
  induction m as [|[k' v'] m IH]; cbn.
  - by rewrite String.eqb_refl.
  - destruct (String.eqb_spec k' k) as [->|Hne]; cbn.
    + by rewrite String.eqb_refl.
    + destruct (String.eqb_spec k' k); [done|]. by rewrite IH.
Qed.

End JsFacts.

(** ** Durations *)

Section Durations.

Context (browser : Browser).

Lemma Number_test_digits s :
  test_digits s = true -> Number browser s = Int (digits_value 0 s).
Proof.
  intros [Hall Hne]%test_digits_all. unfold Number.
  rewrite (trim_all_digits s Hall), Hall.
  by destruct s.
Qed.

Lemma parseDuration_accepted raw :
  accepted_encoding (trim raw) = true ->
  parseDuration browser raw = Int (seconds_of (trim raw)).
Proof.
  unfold accepted_encoding, seconds_of, parseDuration.
  destruct (test_digits (trim raw)) eqn:Hd; cbn [orb].
  - intros _. by apply parseInt_test_digits.
  - destruct (split ":" (trim raw)) as [|p0 [|p1 [|p2 [|p3 ps]]]]; try discriminate.
    + intros [H0 H1]%andb_prop. cbn [map].
      rewrite !Number_test_digits by done. cbn [mul add]. f_equal. lia.
    + intros [[H0 H1]%andb_prop H2]%andb_prop. cbn [map].
      rewrite !Number_test_digits by done. cbn [mul add]. f_equal. lia.
Qed.

Lemma parseDuration_fallback raw :
  test_digits (trim raw) = false ->
  length (split ":" (trim raw)) <> 2%nat ->
  length (split ":" (trim raw)) <> 3%nat ->
  parseDuration browser raw = Int 0.
Proof.
  unfold parseDuration. intros -> H2 H3.
  destruct (split ":" (trim raw)) as [|p0 [|p1 [|p2 [|p3 ps]]]]; cbn in *; done.
Qed.

End Durations.

(** C7.  Duration normalization maps each accepted encoding (a run of
    digits, [MM:SS], [HH:MM:SS]) to the integer seconds it denotes, as far
    as a number holds integers exactly; "3600" gives 3600, "45:30" gives
    2730 and "1:30:00" gives 5400. *)
Theorem C7_duration_normalization (browser : Browser) :
  (forall raw,
     accepted_encoding (trim raw) = true ->
     seconds_of (trim raw) <= MAX_SAFE_INTEGER ->
     parseDuration browser raw = Int (seconds_of (trim raw)))
  /\ parseDuration browser "3600" = Int 3600
  /\ parseDuration browser "45:30" = Int 2730
  /\ parseDuration browser "1:30:00" = Int 5400.
Proof.
  split; [intros raw H _; by apply parseDuration_accepted|].
  repeat split; by rewrite parseDuration_accepted.
Qed.

Lemma C7_duration_normalization_witness :
  accepted_encoding (trim " 2:03:04 ") = true
  /\ seconds_of (trim " 2:03:04 ") <= MAX_SAFE_INTEGER
  /\ parseDuration offline " 2:03:04 " = Int 7384.
Proof.
  split; [reflexivity|]. split; [by vm_compute|].
  exact (proj1 (C7_duration_normalization offline) " 2:03:04 " eq_refl
           ltac:(by vm_compute)).
Defined.

(** C6, as the code has it: an item whose duration text is present (a
    non-empty string) always gets a duration, never an absent one.  The
    duration is what [parseDuration] makes of the text: 0 when the trimmed
    text is not a run of digits and does not split into two or three parts
    at colons, and 0 for the text "0". *)
Theorem C6_present_text_gives_duration (browser : Browser)
    (item : RssItem) (text : string) (eps eps' : list PodcastEpisode)
    (self self' : PodcastSource) :
  truthy (rss_enclosure_url item) = true ->
  getElementByTagNameNS_duration item = Some text ->
  text <> "" ->
  parseItem browser item eps self = (Ok eps', self') ->
  exists ep,
    eps' = eps ++ [ep]
    /\ ep_duration ep = Some (parseDuration browser text)
    /\ (test_digits (trim text) = false ->
        length (split ":" (trim text)) <> 2%nat ->
        length (split ":" (trim text)) <> 3%nat ->
        ep_duration ep = Some (Int 0))
    /\ (text = "0" -> ep_duration ep = Some (Int 0)).
Proof.
  intros Haudio Htext Hne. unfold parseItem. rewrite Haudio, Htext. cbn [negb].
  assert (Ht : truthy (Some text) = true).
  { cbn. by destruct (String.eqb_spec text ""). }
  rewrite Ht. unfold bind.
  destruct (truthy (rss_pubDate item)); [destruct (toISOString _ _)|];
    cbn; intros [= <- <-]; eexists; (split; [reflexivity|]); cbn;
    (split; [reflexivity|]); (split; [|by intros ->]);
    intros; f_equal; by apply parseDuration_fallback.
Qed.

Lemma C6_present_text_gives_duration_witness :
  exists ep,
    ep_duration ep = Some (Int 0)
    /\ fst (parseItems sample_browser (chan_items odd_channel) [] fresh_podcasts) = Ok [ep].
Proof.
  destruct (C6_present_text_gives_duration sample_browser
              (rss_item "ep-x" "Mon, 01 Jul 2024 12:00:00 GMT"
                 "https://example.com/x.mp3" (Some "abc"))
              "abc" [] _ fresh_podcasts _ eq_refl eq_refl ltac:(discriminate) eq_refl)
    as (ep & Heps & _ & H0 & _).
  exists ep. split.
  - apply H0; [reflexivity | vm_compute; discriminate | vm_compute; discriminate].
  - injection Heps as <-. reflexivity.
Defined.

(** C6 as stated fails: the text "abc" is none of the three encodings, and
    the episode parsed from it has duration 0, not an absent duration. *)
Lemma C6_counterexample :
  accepted_encoding (trim "abc") = false
  /\ exists feed ep,
       parseRssFeed sample_browser "https://example.com/odd.xml"
         "https://example.com/odd.xml" fresh_podcasts = (Ok feed, fresh_podcasts)
       /\ episodes feed = [ep]
       /\ ep_duration ep = Some (Int 0)
       /\ ep_duration ep <> None.
Proof.
  split; [reflexivity|].
  eexists _, _. split; [reflexivity|]. cbn. split; [reflexivity|]. done.
Qed.

(** ** The capability flag *)

(** C2.  On an adapter whose [isUpdateSource] is false, as
    [SpotifySource], [checkForUpdates] throws the UnsupportedOperation error
    whatever its arguments: it returns nothing and leaves the adapter as it
    was. *)
Theorem C2_checkForUpdates_unsupported {S} (source : MediaSource S)
    (collectionId lastSeenItemId : string) (self : S) :
  isUpdateSource = false ->
  exists e,
    checkForUpdates collectionId lastSeenItemId self = (Throw e, self)
    /\ UnsupportedOperation e.
Proof.
  intros H. unfold checkForUpdates. rewrite H. cbn [negb].
  eexists. split; [reflexivity|]. by exists displayName.
Qed.

Lemma C2_checkForUpdates_unsupported_witness :
  exists e,
    checkForUpdates (H := SpotifySource_MediaSource) "pl-1" "item-1" signed_out
      = (Throw e, signed_out)
    /\ UnsupportedOperation e.
Proof.
  exact (C2_checkForUpdates_unsupported SpotifySource_MediaSource
           "pl-1" "item-1" signed_out eq_refl).
Defined.

(** ** Listing the stored feeds *)

Section Listing.

Context (browser : Browser).

Lemma parseItem_pure item eps self self' :
  parseItem browser item eps self = (fst (parseItem browser item eps self'), self).
Proof.
  unfold parseItem.
  destruct (negb (truthy (rss_enclosure_url item))); [done|].
  unfold bind.
  destruct (truthy (rss_pubDate item)); [destruct (toISOString _ _)|]; done.
Qed.

Lemma parseItems_pure its : forall eps self self',
  parseItems browser its eps self = (fst (parseItems browser its eps self'), self).
Proof.
  induction its as [|item its IH]; intros eps self self'; [done|].
  cbn [parseItems]. unfold bind.
  rewrite (parseItem_pure item eps self self').
  destruct (parseItem browser item eps self') as [[eps'| |] s1]; cbn [fst]; [|done..].
  rewrite (IH eps' self s1). done.
Qed.

Lemma parseRssFeed_pure xml feedUrl self self' :
  parseRssFeed browser xml feedUrl self
  = (fst (parseRssFeed browser xml feedUrl self'), self).
Proof.
  unfold parseRssFeed. destruct (parseChannel browser xml) as [chan|]; [|done].
  unfold bind. rewrite (parseItems_pure _ _ self self').
  by destruct (parseItems browser (chan_items chan) [] self') as [[eps| |] s1].
Qed.

(** Fetching and parsing a feed reads the proxy setting and changes
    nothing. *)
Lemma fetchAndParseFeed_pure feedUrl self self' :
  corsProxyUrl self = corsProxyUrl self' ->
  fetchAndParseFeed browser feedUrl self
  = (fst (fetchAndParseFeed browser feedUrl self'), self).
Proof.
  intros E. unfold fetchAndParseFeed, bind, this. rewrite E.
  destruct (fetch browser _) as [response|e]; [|done].
  destruct (negb (ok response)); [done|]. apply parseRssFeed_pure.
Qed.

Lemma fetchAndParseFeed_state feedUrl self :
  snd (fetchAndParseFeed browser feedUrl self) = self.
Proof. by rewrite (fetchAndParseFeed_pure feedUrl self self). Qed.

Lemma getAvailableMedia_page options self :
  getAvailableMedia options self
  = (Ok (page_at (Map_values (feeds self)) mapFeedToCollection
           (nullish (options ≫= limit) (length_ (Map_values (feeds self))))
           (options ≫= cursor)), self).
Proof. by destruct options as [[l c]|]. Qed.

Lemma getCollectionItems_page url feed options self :
  Map_get (feeds self) url = Some feed ->
  getCollectionItems browser url options self
  = (Ok (page_at (episodes feed) (fun ep => mapEpisode ep feed)
           (nullish (options ≫= limit) (Int 20)) (options ≫= cursor)), self).
Proof.
  intros H. unfold getCollectionItems, bind, this. rewrite H.
  by destruct options as [[l c]|].
Qed.

End Listing.

(** Following the cursors of pages cut from [all], [k i] items at the
    [i]-th call. *)
Lemma fetch_all_pages_page_at {Self A B} (all : list A) (f : A -> B) (k : nat -> nat)
    (call : nat -> option string -> M Self (PaginatedResult B)) (self : Self) :
  (forall i cur,
     call i cur self = (Ok (page_at all f (Int (Z.of_nat (k i))) cur), self)) ->
  (forall i, (0 < k i)%nat \/ (length all <= k i)%nat) ->
  forall fuel i o cur,
    offset_of (with_cursor None cur) = Int (Z.of_nat o) ->
    (length all - o < fuel)%nat ->
    exists pages final,
      fetch_all_pages fuel call i cur self = (Ok pages, self)
      /\ concat (map items pages) = map f (drop o all)
      /\ last pages = Some final
      /\ nextCursor final = None.
Proof.
  intros Hcall Hk. induction fuel as [|fuel IH]; intros i o cur Hcur Hfuel; [lia|].
  cbn [fetch_all_pages]. unfold bind at 1. rewrite Hcall.
  assert (Hpage : page_at all f (Int (Z.of_nat (k i))) cur
                  = {| items := map f (take (k i) (drop o all));
                       nextCursor :=
                         if Z.of_nat o + Z.of_nat (k i) <? Z.of_nat (length all)
                         then Some (String_ (Int (Z.of_nat o + Z.of_nat (k i))))
                         else None;
                       total := Some (length_ all) |}).
  { unfold page_at.
    change (offset_of (with_cursor (Some (Int (Z.of_nat (k i)))) cur))
      with (offset_of (with_cursor None cur)).
    rewrite Hcur. cbn [add lt length_]. by rewrite slice_nat. }
  rewrite Hpage. cbn [nextCursor].
  destruct (Z.ltb_spec (Z.of_nat o + Z.of_nat (k i)) (Z.of_nat (length all)))
    as [Hmore|Hlast].
  - destruct (parseInt_String (Z.of_nat o + Z.of_nat (k i)) ltac:(lia))
      as [Hparse Htruthy].
    destruct (IH (S i) (o + k i)%nat
                (Some (String_ (Int (Z.of_nat o + Z.of_nat (k i))))))
      as (pages & final & Hrun & Hcat & Hlast & Hnone).
    { unfold offset_of, with_cursor. cbn [mbind option_bind cursor].
      rewrite Htruthy. cbn [nullish from_option id]. rewrite Hparse. f_equal. lia. }
    { destruct (Hk i); lia. }
    unfold bind. rewrite Hrun. eexists _, final. split; [reflexivity|].
    split; [|split; [|done]].
    + cbn [map concat items]. rewrite Hcat, <- map_app. f_equal.
      rewrite <- drop_drop. apply take_drop.
    + by destruct pages.
  - eexists _, _. split; [reflexivity|]. split; [|split; [reflexivity|done]].
    cbn [map concat items]. rewrite app_nil_r. f_equal.
    apply take_ge. rewrite length_drop. lia.
Qed.

(** One call for the whole list: every item, and no next cursor. *)
Lemma page_at_whole {A B} (all : list A) (f : A -> B) :
  page_at all f (length_ all) None
  = {| items := map f all; nextCursor := None; total := Some (length_ all) |}.
Proof.
  unfold page_at. cbn [with_cursor offset_of mbind option_bind cursor truthy length_ add lt].
  rewrite Z.ltb_irrefl. f_equal.
  change (Int (0 + Z.of_nat (length all)))
    with (Int (Z.of_nat 0 + Z.of_nat (length all))).
  change (Int 0) with (Int (Z.of_nat 0)).
  rewrite slice_nat. cbn [drop]. by rewrite take_ge.
Qed.

Lemma page_count_ok (size : option number) (default : nat) :
  page_size_ok size ->
  nullish size (Int (Z.of_nat default)) = Int (Z.of_nat (page_count size default))
  /\ ((0 < page_count size default)%nat \/ page_count size default = default).
Proof.
  unfold page_count. destruct size as [[z|]|]; cbn; intros H; [|done|].
  - split; [f_equal; lia | left; lia].
  - rewrite Nat2Z.id. by split; [|right].
Qed.

(** C8.  Over any stored feeds, the pages of [getAvailableMedia] and of
    [getCollectionItems], fetched from no cursor on by following each
    [nextCursor] (the page size of each call omitted or a positive integer),
    concatenate to exactly the items a single call with [limit = total]
    returns, each item once and in order; the last page has no
    [nextCursor], and neither has the single call. *)
Theorem C8_pages_concatenate (browser : Browser) (self : PodcastSource)
    (size : nat -> option number) :
  (forall i, page_size_ok (size i)) ->
  (let all := Map_values (feeds self) in
   exists pages final,
     fetch_all_pages (S (length all))
       (fun i cur => getAvailableMedia (with_cursor (size i) cur)) 0 None self
       = (Ok pages, self)
     /\ getAvailableMedia (with_cursor (Some (length_ all)) None) self
        = (Ok {| items := map mapFeedToCollection all;
                 nextCursor := None;
                 total := Some (length_ all) |}, self)
     /\ concat (map items pages) = map mapFeedToCollection all
     /\ last pages = Some final
     /\ nextCursor final = None)
  /\ (forall url feed,
        Map_get (feeds self) url = Some feed ->
        let all := episodes feed in
        exists pages final,
          fetch_all_pages (S (length all))
            (fun i cur => getCollectionItems browser url (with_cursor (size i) cur))
            0 None self
            = (Ok pages, self)
          /\ getCollectionItems browser url (with_cursor (Some (length_ all)) None) self
             = (Ok {| items := map (fun ep => mapEpisode ep feed) all;
                      nextCursor := None;
                      total := Some (length_ all) |}, self)
          /\ concat (map items pages) = map (fun ep => mapEpisode ep feed) all
          /\ last pages = Some final
          /\ nextCursor final = None).
Proof.
  intros Hsize. split.
  - intros all.
    destruct (fetch_all_pages_page_at all mapFeedToCollection
                (fun i => page_count (size i) (length all))
                (fun i cur => getAvailableMedia (with_cursor (size i) cur)) self)
      with (fuel := S (length all)) (i := 0%nat) (o := 0%nat) (cur := @None string)
      as (pages & final & Hrun & Hcat & Hlast & Hnone).
    { intros i cur. rewrite getAvailableMedia_page.
      cbn [with_cursor mbind option_bind limit cursor]. fold all. unfold length_ at 1.
      by rewrite (proj1 (page_count_ok (size i) (length all) (Hsize i))). }
    { intros i. destruct (proj2 (page_count_ok (size i) (length all) (Hsize i)));
        [by left | right; lia]. }
    { done. }
    { lia. }
    exists pages, final. repeat split; try done.
    rewrite getAvailableMedia_page.
    cbn [with_cursor mbind option_bind limit cursor nullish from_option id].
    fold all. by rewrite page_at_whole.
  - intros url feed Hfeed all.
    destruct (fetch_all_pages_page_at all (fun ep => mapEpisode ep feed)
                (fun i => page_count (size i) 20)
                (fun i cur => getCollectionItems browser url (with_cursor (size i) cur))
                self)
      with (fuel := S (length all)) (i := 0%nat) (o := 0%nat) (cur := @None string)
      as (pages & final & Hrun & Hcat & Hlast & Hnone).
    { intros i cur. rewrite (getCollectionItems_page browser url feed) by done.
      cbn [with_cursor mbind option_bind limit cursor]. fold all.
      change (Int 20) with (Int (Z.of_nat 20)).
      by rewrite (proj1 (page_count_ok (size i) 20 (Hsize i))). }
    { intros i. destruct (proj2 (page_count_ok (size i) 20 (Hsize i))) as [?| ->];
        left; lia. }
    { done. }
    { lia. }
    exists pages, final. repeat split; try done.
    rewrite (getCollectionItems_page browser url feed) by done.
    cbn [with_cursor mbind option_bind limit cursor nullish from_option id].
    fold all. by rewrite page_at_whole.
Qed.

Lemma C8_pages_concatenate_witness :
  (forall i : nat, page_size_ok (if decide (i = 0%nat) then Some (Int 2) else None))
  /\ exists pages,
       fetch_all_pages 4
         (fun i cur =>
            getCollectionItems sample_browser "https://example.com/feed.xml"
              (with_cursor (if decide (i = 0%nat) then Some (Int 2) else None) cur))
         0 None sample_podcasts
         = (Ok pages, sample_podcasts)
       /\ map item_id (concat (map items pages)) = ["ep-3"; "ep-2"; "ep-1"]
       /\ map nextCursor pages = [Some "2"; None].
Proof.
  assert (Hsize : forall i : nat,
             page_size_ok (if decide (i = 0%nat) then Some (Int 2) else None)).
  { intros i. by destruct (decide (i = 0%nat)). }
  split; [exact Hsize|].
  destruct (proj2 (C8_pages_concatenate sample_browser sample_podcasts _ Hsize)
              "https://example.com/feed.xml" _ eq_refl)
    as (pages & final & Hrun & _ & Hcat & _).
  exists pages. split; [exact Hrun|].
  vm_compute in Hrun. injection Hrun as <-. split; reflexivity.
Defined.

(** ** Cursors that are not offsets *)

(** C10, as the code has it: for every non-empty cursor that [parseInt]
    reads as [NaN], both listing methods return an empty page without a
    [nextCursor], whatever the page size; [getCollectionItems] does so on a
    stored feed, and on an unknown one as soon as its fetch succeeds.  The
    only error it can throw is that of the fetch of an unknown feed. *)
Theorem C10_unreadable_cursor (browser : Browser) (c : string) (size : option number)
    (self : PodcastSource) :
  c <> "" ->
  parseInt c = NaN ->
  getAvailableMedia (with_cursor size (Some c)) self
    = (Ok {| items := []; nextCursor := None;
             total := Some (length_ (Map_values (feeds self))) |}, self)
  /\ (forall url feed,
        Map_get (feeds self) url = Some feed ->
        getCollectionItems browser url (with_cursor size (Some c)) self
        = (Ok {| items := []; nextCursor := None;
                 total := Some (length_ (episodes feed)) |}, self))
  /\ (forall url feed,
        Map_get (feeds self) url = None ->
        fst (fetchAndParseFeed browser url self) = Ok feed ->
        getCollectionItems browser url (with_cursor size (Some c)) self
        = (Ok {| items := []; nextCursor := None;
                 total := Some (length_ (episodes feed)) |},
           with_feed self url feed))
  /\ (forall url e,
        Map_get (feeds self) url = None ->
        fst (fetchAndParseFeed browser url self) = Throw e ->
        getCollectionItems browser url (with_cursor size (Some c)) self
        = (Throw e, self)).
Proof.
  intros Hne Hnan.
  assert (Hoff : forall s, offset_of (with_cursor s (Some c)) = NaN).
  { intros s. unfold offset_of, with_cursor. cbn [mbind option_bind cursor truthy].
    destruct (String.eqb_spec c ""); [done|]. by cbn. }
  assert (Hpage : forall A B (all : list A) (f : A -> B) s,
             page_at all f s (Some c)
             = {| items := []; nextCursor := None; total := Some (length_ all) |}).
  { intros. unfold page_at. rewrite Hoff. by rewrite slice_NaN. }
  split; [|split; [|split]].
  - by rewrite getAvailableMedia_page, Hpage.
  - intros url feed Hfeed.
    by rewrite (getCollectionItems_page browser url feed), Hpage.
  - intros url feed Hnone Hfetch.
    unfold getCollectionItems, bind, this, feeds_set, update, ret.
    rewrite Hnone, (fetchAndParseFeed_pure browser url self self eq_refl), Hfetch.
    rewrite Hoff, slice_NaN. reflexivity.
  - intros url e Hnone Hfetch.
    unfold getCollectionItems, bind, this, feeds_set, update, ret.
    by rewrite Hnone, (fetchAndParseFeed_pure browser url self self eq_refl), Hfetch.
Qed.

Lemma C10_unreadable_cursor_witness :
  "abc" <> "" /\ parseInt "abc" = NaN
  /\ getCollectionItems sample_browser "https://example.com/feed.xml"
       (with_cursor (Some (Int 2)) (Some "abc")) sample_podcasts
     = (Ok {| items := []; nextCursor := None; total := Some (Int 3) |}, sample_podcasts).
Proof.
  split; [discriminate|]. split; [reflexivity|].
  exact (proj1 (proj2 (C10_unreadable_cursor sample_browser "abc" (Some (Int 2))
                         sample_podcasts ltac:(discriminate) eq_refl))
           "https://example.com/feed.xml" _ eq_refl).
Defined.

(** C10 as stated fails on the empty cursor: it is a string that does not
    parse as a decimal integer, and both methods answer it with the first
    page and a [nextCursor]. *)
Lemma C10_counterexample :
  parseInt "" = NaN
  /\ (exists page,
        getCollectionItems sample_browser "https://example.com/feed.xml"
          (with_cursor (Some (Int 2)) (Some "")) sample_podcasts
        = (Ok page, sample_podcasts)
        /\ map item_id (items page) = ["ep-3"; "ep-2"]
        /\ nextCursor page = Some "2")
  /\ (exists page,
        getAvailableMedia (with_cursor None (Some "")) sample_podcasts
        = (Ok page, sample_podcasts)
        /\ map coll_id (items page) = ["https://example.com/feed.xml"]).
Proof.
  split; [reflexivity|].
  split; eexists; (split; [reflexivity|]); by vm_compute.
Qed.

(** ** Update detection: the scan and the order of its result *)

Lemma scan_until_spec {A} (ident : A -> string) (f : A -> MediaItem) marker :
  (forall x, item_id (f x) = ident x) ->
  forall xs acc,
    scan_until ident f marker xs acc
    = (acc ++ before marker (map f xs), occurs marker (map f xs)).
Proof.
  intros Hid. induction xs as [|x xs IH]; intros acc; cbn.
  - by rewrite app_nil_r.
  - rewrite Hid. destruct (String.eqb (ident x) marker); cbn.
    + by rewrite app_nil_r.
    + rewrite IH. by rewrite <- app_assoc.
Qed.

Lemma before_absent marker l : occurs marker l = false -> before marker l = l.
Proof.
  induction l as [|i l IH]; cbn; [done|].
  destruct (String.eqb (item_id i) marker); cbn; [done|]. intros H. by rewrite IH.
Qed.

Lemma before_app marker l1 l2 :
  before marker (l1 ++ l2)
  = if occurs marker l1 then before marker l1 else l1 ++ before marker l2.
Proof.
  unfold occurs. induction l1 as [|i l1 IH]; cbn; [done|].
  destruct (String.eqb (item_id i) marker); cbn; [done|].
  rewrite IH. by destruct (existsb _ l1).
Qed.

Lemma occurs_app marker l1 l2 :
  occurs marker (l1 ++ l2) = occurs marker l1 || occurs marker l2.
Proof. apply existsb_app. Qed.

Lemma newest_first_before marker l :
  newest_first l = true -> newest_first (before marker l) = true.
Proof.
  induction l as [|a l IH]; [done|].
  intros H. cbn [before]. destruct (String.eqb (item_id a) marker); [done|].
  destruct l as [|b l]; [done|].
  cbn [newest_first] in H. apply andb_prop in H as [Hab Hrest].
  specialize (IH Hrest). revert IH. cbn [before].
  destruct (String.eqb (item_id b) marker); [done|].
  intros IH.
  change (newest_first (a :: b :: before marker l))
    with (String.leb (published b) (published a)
          && newest_first (b :: before marker l)).
  by rewrite Hab, IH.
Qed.

Lemma oldest_first_snoc l x :
  oldest_first (l ++ [x])
  = oldest_first l
    && match last l with
       | Some y => String.leb (published y) (published x)
       | None => true
       end.
Proof.
  induction l as [|a l IH]; [done|].
  destruct l as [|b l].
  - cbn. by rewrite andb_true_r.
  - change (oldest_first ((a :: b :: l) ++ [x]))
      with (String.leb (published a) (published b) && oldest_first ((b :: l) ++ [x])).
    rewrite IH. cbn [oldest_first]. rewrite last_cons_cons. by rewrite andb_assoc.
Qed.

(** Reversing a newest-first listing gives an oldest-first one. *)
Lemma oldest_first_rev l : newest_first l = true -> oldest_first (rev l) = true.
Proof.
  induction l as [|a l IH]; [done|].
  intros H. cbn [rev]. rewrite oldest_first_snoc.
  destruct l as [|b l]; [done|].
  cbn [newest_first] in H. apply andb_prop in H as [Hab Hrest].
  rewrite (IH Hrest). cbn [rev]. by rewrite last_snoc.
Qed.




(** ** Update detection on [PodcastSource] *)

Section PodcastUpdates.

Context (browser : Browser).

(** What a call does, from the outcome of the fetch it starts with. *)
Lemma PodcastSource_checkForUpdates feedUrl marker self :
  checkForUpdates (H := PodcastSource_MediaSource browser) feedUrl marker self
  = match fst (fetchAndParseFeed browser feedUrl self) with
    | Ok feed => (Ok (rev (before marker (listing_of feed))), with_feed self feedUrl feed)
    | Throw e => (Throw e, self)
    | OutOfFuel => (OutOfFuel, self)
    end.
Proof.
  unfold checkForUpdates. cbn [isUpdateSource fetchUpdatesSince PodcastSource_MediaSource negb].
  unfold PodcastSource_fetchUpdatesSince, refreshFeed, bind.
  rewrite (fetchAndParseFeed_pure browser feedUrl self self eq_refl).
  destruct (fst (fetchAndParseFeed browser feedUrl self)) as [feed|e|]; [|done..].
  cbn. rewrite (scan_until_spec guid (fun ep => mapEpisode ep feed)) by done.
  done.
Qed.

End PodcastUpdates.

(** C9.  [PodcastSource.checkForUpdates(feedUrl, marker)] fetches the feed
    anew; when it returns, the entry stored for [feedUrl] is the freshly
    parsed feed; the entry of every other feed URL is what it was, whether
    the call returns or throws. *)
Theorem C9_checkForUpdates_frame (browser : Browser) (feedUrl marker : string)
    (self self' : PodcastSource) (r : outcome (list MediaItem)) :
  checkForUpdates (H := PodcastSource_MediaSource browser) feedUrl marker self = (r, self') ->
  (forall other, other <> feedUrl ->
     Map_get (feeds self') other = Map_get (feeds self) other)
  /\ (forall result, r = Ok result ->
        exists feed,
          fetchAndParseFeed browser feedUrl self = (Ok feed, self)
          /\ Map_get (feeds self') feedUrl = Some feed)
  /\ ((forall result, r <> Ok result) -> self' = self).
Proof.
  rewrite PodcastSource_checkForUpdates.
  pose proof (fetchAndParseFeed_pure browser feedUrl self self eq_refl) as Hpure.
  destruct (fst (fetchAndParseFeed browser feedUrl self)) as [feed|e|];
    intros [= <- <-]; (split; [|split]); try done.
  - intros other Hne. cbn. by apply Map_get_set_ne.
  - intros result _. exists feed. split; [done|]. cbn. apply Map_get_set.
  - intros H. by destruct (H _ eq_refl).
Qed.

Lemma C9_checkForUpdates_frame_witness :
  let self' :=
    snd (checkForUpdates (H := PodcastSource_MediaSource sample_browser)
           "https://example.com/archive.xml" "ep-2" sample_podcasts) in
  "https://example.com/feed.xml" <> "https://example.com/archive.xml"
  /\ Map_get (feeds self') "https://example.com/feed.xml"
     = Map_get (feeds sample_podcasts) "https://example.com/feed.xml"
  /\ is_Some (Map_get (feeds self') "https://example.com/archive.xml").
Proof.
  intros self'. split; [discriminate|].
  destruct (C9_checkForUpdates_frame sample_browser
              "https://example.com/archive.xml" "ep-2" sample_podcasts self' _ eq_refl)
    as (Hother & Hthis & _).
  split.
  - apply Hother. discriminate.
  - destruct (Hthis _ eq_refl) as (feed & _ & ->). by eexists.
Defined.

(** ** Update detection on [YouTubeSource] *)

Section YouTubeUpdates.

Context (api : YouTubeApi).

Ltac unmonad :=
  cbv beta iota zeta delta
    [bind this ret throw update record_request cache_set fetchApi].

Lemma truthy_Some tok : tok <> "" -> truthy (Some tok) = true.
Proof. intros H. cbn. by destruct (String.eqb_spec tok ""). Qed.

(** [getUploadsPlaylistId], step by step. *)
Lemma getUploadsPlaylistId_run c self :
  getUploadsPlaylistId api c self
  = let cached := uploadsPlaylistCache self !! c in
    let asked := {| accessToken := accessToken self;
                    uploadsPlaylistCache := uploadsPlaylistCache self;
                    sent := sent self ++ [ChannelsRequest c] |} in
    if truthy cached then (Ok (nullish cached ""), self)
    else if negb (truthy (accessToken self))
    then (Throw (Error "YouTube: not authenticated"), self)
    else
      match channels api (nullish (accessToken self) "") c with
      | NetworkFailure e => (Throw e, asked)
      | HttpError status statusText =>
          (Throw (Error ("YouTube API error: " +:+ String_ (Int status)
                         +:+ " " +:+ statusText)), asked)
      | Json data =>
          match channel_uploads data with
          | [] => (Throw (Error ("YouTube channel not found: " +:+ c)), asked)
          | uploadsId :: _ =>
              (Ok uploadsId,
               {| accessToken := accessToken self;
                  uploadsPlaylistCache := <[c := uploadsId]> (uploadsPlaylistCache self);
                  sent := sent self ++ [ChannelsRequest c] |})
          end
      end.
Proof.
  unfold getUploadsPlaylistId. unmonad.
  destruct (truthy (uploadsPlaylistCache self !! c)); unmonad; [done|].
  destruct (negb (truthy (accessToken self))); unmonad; [done|].
  destruct (channels api _ c) as [e|st txt|[[|u us]]]; done.
Qed.

(** Resolving a channel reads the token and the cache only. *)
Lemma getUploadsPlaylistId_reads c s1 s2 :
  accessToken s1 = accessToken s2 ->
  uploadsPlaylistCache s1 = uploadsPlaylistCache s2 ->
  fst (getUploadsPlaylistId api c s1) = fst (getUploadsPlaylistId api c s2).
Proof.
  intros Ht Hc. rewrite !getUploadsPlaylistId_run. cbv zeta. rewrite Ht, Hc.
  destruct (truthy (uploadsPlaylistCache s2 !! c)); [done|].
  destruct (negb (truthy (accessToken s2))); [done|].
  destruct (channels api _ c) as [e|st txt|[[|u us]]]; done.
Qed.

Lemma page_requests_channel c self t k :
  page_requests {| accessToken := t; uploadsPlaylistCache := k;
                   sent := sent self ++ [ChannelsRequest c] |}
  = page_requests self.
Proof.
  unfold page_requests. cbn [sent]. rewrite List.filter_app. cbn. by rewrite app_nil_r.
Qed.

(** Resolving a channel keeps the token, sends no page request, and leaves
    the channel resolving as it did. *)
Lemma getUploadsPlaylistId_keeps c self :
  let self' := snd (getUploadsPlaylistId api c self) in
  accessToken self' = accessToken self
  /\ page_requests self' = page_requests self
  /\ fst (getUploadsPlaylistId api c self') = fst (getUploadsPlaylistId api c self).
Proof.
  cbv zeta. rewrite (getUploadsPlaylistId_run c self). cbv zeta.
  destruct (truthy (uploadsPlaylistCache self !! c)) eqn:Hcached.
  { cbn [fst snd]. rewrite getUploadsPlaylistId_run. cbv zeta. by rewrite Hcached. }
  destruct (negb (truthy (accessToken self))) eqn:Htok.
  { cbn [fst snd]. rewrite getUploadsPlaylistId_run. cbv zeta. by rewrite Hcached, Htok. }
  destruct (channels api _ c) as [e|st txt|[[|u us]]] eqn:Hreply;
    cbn [fst snd accessToken channel_uploads]; rewrite page_requests_channel;
    (split; [done|]); (split; [done|]);
    rewrite getUploadsPlaylistId_run; cbv zeta;
    cbn [accessToken uploadsPlaylistCache sent];
    rewrite ?Hcached, ?Htok, ?Hreply; try done.
  rewrite lookup_insert_eq.
  by destruct (truthy (Some u)).
Qed.









(** One iteration of the walk. *)
Lemma page_walk_step fuel c marker acc cur self :
  page_walk api (S fuel) c marker acc cur self
  = match YouTubeSource_getCollectionItems api c
            (Some {| limit := Some (Int 20); cursor := cur |}) self with
    | (Ok page, s1) =>
        let scanned := scan_until item_id (fun item => item) marker (items page) acc in
        if negb (snd scanned) && truthy (nextCursor page)
        then page_walk api fuel c marker (fst scanned) (nextCursor page) s1
        else (Ok (rev (fst scanned)), s1)
    | (Throw e, s1) => (Throw e, s1)
    | (OutOfFuel, s1) => (OutOfFuel, s1)
    end.
Proof.
  cbn [page_walk]. unfold bind.
  destruct (YouTubeSource_getCollectionItems api c _ self) as [[page|e|] s1]; [|done..].
  cbv zeta. destruct (scan_until _ _ _ _ _) as [allNew' found]. cbn [fst snd].
  by destruct (negb found && truthy (nextCursor page)).
Qed.



(** Listing one page for an adapter that is signed in. *)
Lemma getCollectionItems_ready c tok u cur p self :
  ready api c tok u self ->
  playlistItems api tok u "20" (or_undefined cur) = Json p ->
  exists self',
    YouTubeSource_getCollectionItems api c
      (Some {| limit := Some (Int 20); cursor := cur |}) self
    = (Ok {| items := page_items p;
             nextCursor := nextPageToken p;
             total := Some (totalResults p) |}, self')
    /\ ready api c tok u self'
    /\ page_requests self' = S (page_requests self).
Proof.
  intros (Htok & Hne & Hres) Hpage.
  destruct (getUploadsPlaylistId_keeps c self) as (Ht & Hreq & Hfst).
  unfold YouTubeSource_getCollectionItems, bind at 1.
  destruct (getUploadsPlaylistId api c self) as [r s1]. cbn [fst snd] in *.
  subst r. unmonad. rewrite Ht, Htok, (truthy_Some tok Hne). cbn [negb].
  cbn [mbind option_bind limit cursor nullish from_option id DEFAULT_LIMIT].
  change (String_ (Int 20)) with "20". rewrite Hpage.
  eexists. split; [reflexivity|]. split; [split; [|split]|].
  - cbn [accessToken]. congruence.
  - done.
  - rewrite <- Hfst. by apply getUploadsPlaylistId_reads.
  - unfold page_requests in *. cbn [sent].
    rewrite List.filter_app, length_app, <- Hreq. cbn. lia.
Qed.

(** The walk returns what it inspected before the marker, oldest first,
    having requested exactly the inspected pages. *)
Lemma page_walk_inspected c tok u marker : forall fuel acc cur pages self,
  ready api c tok u self ->
  inspected api fuel tok u marker (or_undefined cur) = Some pages ->
  exists self',
    page_walk api fuel c marker acc cur self
    = (Ok (rev (acc ++ before marker (listed pages))), self')
    /\ page_requests self' = (page_requests self + length pages)%nat.
Proof.
  induction fuel as [|fuel IH]; intros acc cur pages self Hready Hins; [done|].
  cbn [inspected] in Hins.
  destruct (playlistItems api tok u "20" (or_undefined cur)) as [| |p] eqn:Hpage;
    [done..|].
  destruct (getCollectionItems_ready c tok u cur p self Hready Hpage)
    as (s1 & Hrun & Hready1 & Hreq1).
  rewrite page_walk_step, Hrun. cbv zeta. cbn [items nextCursor].
  rewrite (scan_until_spec item_id (fun item => item)) by done.
  rewrite map_id. cbn [fst snd].
  destruct (occurs marker (page_items p)) eqn:Hocc; cbn [orb negb andb] in *.
  - injection Hins as <-. exists s1. split; [|cbn; lia].
    unfold listed. cbn [map concat]. by rewrite app_nil_r.
  - destruct (truthy (nextPageToken p)) eqn:Hnext; cbn [negb] in Hins.
    + destruct (inspected api fuel tok u marker (nextPageToken p)) as [ps|] eqn:Hrest;
        [|done].
      injection Hins as <-.
      destruct (IH (acc ++ before marker (page_items p)) (nextPageToken p) ps s1 Hready1)
        as (s2 & Hwalk & Hreq2).
      { unfold or_undefined. by rewrite Hnext. }
      exists s2. split; [|cbn [length]; lia].
      rewrite Hwalk. do 2 f_equal. unfold listed. cbn [map concat].
      rewrite before_app, Hocc, (before_absent _ _ Hocc). by rewrite app_assoc.
    + injection Hins as <-. exists s1. split; [|cbn; lia].
      unfold listed. cbn [map concat]. by rewrite app_nil_r.
Qed.

Lemma YouTubeSource_checkForUpdates fuel c marker self :
  checkForUpdates (H := YouTubeSource_MediaSource api fuel) c marker self
  = page_walk api fuel c marker [] None self.
Proof. reflexivity. Qed.


End YouTubeUpdates.

(** ** What [checkForUpdates] returns *)

(** C1, as the code has it: when [lastSeenItemId] does not occur among the
    inspected items (the episodes of the refreshed feed; the pages of the
    uploads listing walked to its end), [checkForUpdates] returns all of
    them in reverse listing order.  The result is empty only when nothing
    was listed. *)
Theorem C1_absent_marker_returns_everything :
  (forall (browser : Browser) (feedUrl marker : string) (self : PodcastSource)
          (feed : PodcastFeed),
     fst (fetchAndParseFeed browser feedUrl self) = Ok feed ->
     occurs marker (listing_of feed) = false ->
     fst (checkForUpdates (H := PodcastSource_MediaSource browser) feedUrl marker self)
     = Ok (rev (listing_of feed))
     /\ (rev (listing_of feed) = [] <-> episodes feed = []))
  /\ (forall (api : YouTubeApi) (fuel : nat) (c marker tok u : string)
             (pages : list YouTubePlaylistItemsResponse) (self : YouTubeSource),
        ready api c tok u self ->
        inspected api fuel tok u marker None = Some pages ->
        occurs marker (listed pages) = false ->
        fst (checkForUpdates (H := YouTubeSource_MediaSource api fuel) c marker self)
        = Ok (rev (listed pages))
        /\ (rev (listed pages) = [] <-> listed pages = [])).
Proof.
  split.
  - intros browser feedUrl marker self feed Hfeed Habsent.
    rewrite PodcastSource_checkForUpdates, Hfeed. cbn [fst].
    rewrite (before_absent _ _ Habsent). split; [done|].
    unfold listing_of. destruct (episodes feed) as [|ep eps]; [done|].
    split; [|done]. intros H. apply (f_equal (@length _)) in H.
    rewrite length_rev in H. done.
  - intros api fuel c marker tok u pages self Hready Hins Habsent.
    destruct (page_walk_inspected api c tok u marker fuel [] None pages self Hready Hins)
      as (self' & Hwalk & _).
    rewrite YouTubeSource_checkForUpdates, Hwalk. cbn [fst app].
    rewrite (before_absent _ _ Habsent). split; [done|].
    destruct (listed pages) as [|i l]; [done|].
    split; [|done]. intros H. apply (f_equal (@length _)) in H.
    rewrite length_rev in H. done.
Qed.

Lemma C1_absent_marker_returns_everything_witness :
  exists result,
    fst (checkForUpdates (H := PodcastSource_MediaSource sample_browser)
           "https://example.com/feed.xml" "nonexistent-id" sample_podcasts)
    = Ok result
    /\ map item_id result = ["ep-1"; "ep-2"; "ep-3"].
Proof.
  eexists. split.
  - exact (proj1 (proj1 C1_absent_marker_returns_everything sample_browser
                    "https://example.com/feed.xml" "nonexistent-id" sample_podcasts
                    _ eq_refl eq_refl)).
  - reflexivity.
Defined.

(** C1 as stated fails.  On the three-episode feed, and on the three-upload
    channel, a marker that is nowhere in the listing gets all three items
    back, not the empty sequence. *)
Lemma C1_counterexample :
  (exists feed result,
     fst (fetchAndParseFeed sample_browser "https://example.com/feed.xml" sample_podcasts)
     = Ok feed
     /\ occurs "nonexistent-id" (listing_of feed) = false
     /\ fst (checkForUpdates (H := PodcastSource_MediaSource sample_browser)
               "https://example.com/feed.xml" "nonexistent-id" sample_podcasts)
        = Ok result
     /\ map item_id result = ["ep-1"; "ep-2"; "ep-3"]
     /\ result <> [])
  /\ (exists pages result,
        inspected test_channel 5%nat "yt-token" "UU789" "nonexistent-id" None = Some pages
        /\ occurs "nonexistent-id" (listed pages) = false
        /\ fst (checkForUpdates (H := YouTubeSource_MediaSource test_channel 5%nat)
                  "UC789" "nonexistent-id" signed_in)
           = Ok result
        /\ map item_id result = ["vid-last"; "vid-new-1"; "vid-new-2"]
        /\ result <> []).
Proof.
  split; eexists _, _; repeat split; try reflexivity; by vm_compute.
Qed.

(** The adapters do not sort: for every call the result is the inspected
    listing up to the marker, reversed.  It is ordered oldest-first whenever
    the provider lists newest-first. *)
Lemma updates_are_the_reversed_listing :
  (forall (browser : Browser) (feedUrl marker : string) (self : PodcastSource)
          (feed : PodcastFeed),
     fst (fetchAndParseFeed browser feedUrl self) = Ok feed ->
     exists result,
       fst (checkForUpdates (H := PodcastSource_MediaSource browser) feedUrl marker self)
       = Ok result
       /\ result = rev (before marker (listing_of feed))
       /\ (newest_first (listing_of feed) = true -> oldest_first result = true))
  /\ (forall (api : YouTubeApi) (fuel : nat) (c marker tok u : string)
             (pages : list YouTubePlaylistItemsResponse) (self : YouTubeSource),
        ready api c tok u self ->
        inspected api fuel tok u marker None = Some pages ->
        exists result,
          fst (checkForUpdates (H := YouTubeSource_MediaSource api fuel) c marker self)
          = Ok result
          /\ result = rev (before marker (listed pages))
          /\ (newest_first (listed pages) = true -> oldest_first result = true)).
Proof.
  split.
  - intros browser feedUrl marker self feed Hfeed.
    rewrite PodcastSource_checkForUpdates, Hfeed. cbn [fst].
    eexists. split; [reflexivity|]. split; [reflexivity|].
    intros Hnew. by apply oldest_first_rev, newest_first_before.
  - intros api fuel c marker tok u pages self Hready Hins.
    destruct (page_walk_inspected api c tok u marker fuel [] None pages self Hready Hins)
      as (self' & Hwalk & _).
    rewrite YouTubeSource_checkForUpdates, Hwalk. cbn [fst app].
    eexists. split; [reflexivity|]. split; [reflexivity|].
    intros Hnew. by apply oldest_first_rev, newest_first_before.
Qed.

(** C3.  The result of [checkForUpdates] is to be ordered oldest-first,
    each item published no later than the next.  The code reverses the
    listing instead of ordering it: on a feed that lists its three episodes
    oldest first, with the newest as the marker, [PodcastSource] returns the
    two others newest first, the first published after the second. *)
Theorem C3_chronological_feed_is_returned_newest_first :
  exists a b,
    fst (checkForUpdates (H := PodcastSource_MediaSource sample_browser)
           "https://example.com/archive.xml" "ep-3" fresh_podcasts)
    = Ok [a; b]
    /\ map item_id [a; b] = ["ep-2"; "ep-1"]
    /\ item_publishedAt a = Some "2024-07-02T12:00:00.000Z"
    /\ item_publishedAt b = Some "2024-07-01T12:00:00.000Z"
    /\ String.leb (published a) (published b) = false
    /\ oldest_first [a; b] = false.
Proof. eexists _, _. repeat split; reflexivity. Qed.




(** ** The length of the walk *)

(** The walk inspects each of the [n] pages of [long_channel n]. *)
Lemma inspected_long_channel (n : nat) (tok u : string) : forall (k : nat) pageToken,
  0 <= page_index pageToken ->
  Z.of_nat k = Z.of_nat n - page_index pageToken ->
  (0 < k)%nat ->
  exists pages,
    inspected (long_channel n) k tok u "none" pageToken = Some pages
    /\ length pages = k.
Proof.
  induction k as [|k IH]; intros pageToken Hpos Hk Hk0; [lia|].
  cbn [inspected long_channel playlistItems].
  change (occurs "none" (page_items _)) with false. cbn [orb nextPageToken].
  destruct (Z.ltb_spec (page_index pageToken + 1) (Z.of_nat n)) as [Hmore|Hend].
  - destruct (parseInt_String (page_index pageToken + 1) ltac:(lia)) as [Hparse Htruthy].
    rewrite Htruthy. cbn [negb].
    destruct (IH (Some (String_ (Int (page_index pageToken + 1))))) as (pages & -> & Hlen).
    { cbn [page_index]. rewrite Hparse. cbn. lia. }
    { cbn [page_index]. rewrite Hparse. cbn [ToIntegerOrInfinity]. lia. }
    { lia. }
    eexists. split; [reflexivity|]. cbn [length]. lia.
  - cbn [truthy negb]. eexists. split; [reflexivity|]. cbn [length]. lia.
Qed.

Lemma signed_in_ready (api : YouTubeApi) :
  channels api "yt-token" "UC789" = Json {| channel_uploads := ["UU789"] |} ->
  ready api "UC789" "yt-token" "UU789" signed_in.
Proof.
  intros H. split; [done|]. split; [done|].
  rewrite getUploadsPlaylistId_run. cbv zeta.
  change (uploadsPlaylistCache signed_in !! "UC789") with (@None string).
  cbn [truthy accessToken signed_in negb nullish from_option id]. rewrite H. done.
Qed.

(** C4, as the code has it: the walk has no page cap.  It requests page
    after page until one holds the marker or names no next page, whatever
    the number of pages this takes, and then returns every item it met
    before the marker, oldest first: all the items of a listing that ends
    without the marker. *)
Theorem C4_walk_requests_every_page (api : YouTubeApi) (fuel : nat)
    (c marker tok u : string) (pages : list YouTubePlaylistItemsResponse)
    (self : YouTubeSource) :
  ready api c tok u self ->
  inspected api fuel tok u marker None = Some pages ->
  exists self',
    checkForUpdates (H := YouTubeSource_MediaSource api fuel) c marker self
    = (Ok (rev (before marker (listed pages))), self')
    /\ page_requests self' = (page_requests self + length pages)%nat
    /\ (occurs marker (listed pages) = false ->
        before marker (listed pages) = listed pages).
Proof.
  intros Hready Hins.
  destruct (page_walk_inspected api c tok u marker fuel [] None pages self Hready Hins)
    as (self' & Hwalk & Hreq).
  exists self'. rewrite YouTubeSource_checkForUpdates, Hwalk.
  split; [done|]. split; [done|]. apply before_absent.
Qed.

Lemma C4_walk_requests_every_page_witness :
  exists self' result,
    checkForUpdates (H := YouTubeSource_MediaSource (long_channel 25) 25%nat)
      "UC789" "none" signed_in = (Ok result, self')
    /\ page_requests self' = 25%nat
    /\ length result = 25%nat.
Proof.
  destruct (inspected_long_channel 25 "yt-token" "UU789" 25 None
              ltac:(done) ltac:(done) ltac:(lia)) as (pages & Hins & Hlen).
  destruct (C4_walk_requests_every_page (long_channel 25) 25 "UC789" "none"
              "yt-token" "UU789" pages signed_in
              (signed_in_ready (long_channel 25) eq_refl) Hins)
    as (self' & Hrun & Hreq & _).
  exists self', (rev (before "none" (listed pages))).
  split; [exact Hrun|]. split; [by rewrite Hreq, Hlen|].
  vm_compute in Hins. injection Hins as <-. reflexivity.
Defined.

(** C4 as stated fails: no page count bounds the walk.  Whatever the cap,
    a channel with one page more is walked to its last page.  And a walk
    that runs out of pages without meeting the marker does not return the
    empty sequence: the three-page channel costs three page requests and
    yields its three uploads. *)
Lemma C4_counterexample :
  (~ exists cap, walk_capped cap)
  /\ (exists pages self' result,
        inspected (long_channel 3) 3 "yt-token" "UU789" "none" None = Some pages
        /\ occurs "none" (listed pages) = false
        /\ checkForUpdates (H := YouTubeSource_MediaSource (long_channel 3) 3%nat)
             "UC789" "none" signed_in = (Ok result, self')
        /\ page_requests self' = 3%nat
        /\ map item_id result = ["vid-2"; "vid-1"; "vid-0"]
        /\ result <> []).
Proof.
  split.
  - intros [cap Hcap].
    destruct (inspected_long_channel (S cap) "yt-token" "UU789" (S cap) None
                ltac:(done) ltac:(cbn [page_index]; lia) ltac:(lia))
      as (pages & Hins & Hlen).
    destruct (page_walk_inspected (long_channel (S cap)) "UC789" "yt-token" "UU789"
                "none" (S cap) [] None pages signed_in
                (signed_in_ready (long_channel (S cap)) eq_refl) Hins)
      as (self' & Hwalk & Hreq).
    pose proof (Hcap (long_channel (S cap)) (S cap) "UC789" "none" signed_in self' _
                  Hwalk) as Hle.
    rewrite Hreq, Hlen in Hle. lia.
  - eexists _, _, _. split; [reflexivity|]. split; [reflexivity|].
    split; [reflexivity|]. split; [reflexivity|]. split; [reflexivity|]. by vm_compute.
Qed.

(** * Further properties of the adapters *)

(** ** The feed store of [PodcastSource] *)

Section MapFacts.

Context {V : Type}.
Implicit Types (m : Map V) (k : string) (v : V).

Lemma Map_get_None_keys m k : Map_get m k = None <-> k ∉ Map_keys m.
Proof.
  unfold Map_keys. induction m as [|[k' v'] m IH]; cbn.
  - split; [intros _; apply not_elem_of_nil | done].
  - rewrite not_elem_of_cons. destruct (String.eqb_spec k' k) as [->|Hne].
    + split; [done | by intros [? _]].
    + rewrite IH. split; [by split | by intros [_ ?]].
Qed.

Lemma Map_set_fresh m k v : Map_get m k = None -> Map_set m k v = m ++ [(k, v)].
Proof.
  induction m as [|[k' v'] m IH]; cbn; [done|].
  destruct (String.eqb_spec k' k); [done|]. intros H. by rewrite IH.
Qed.

Lemma Map_keys_set m k v :
  Map_keys (Map_set m k v)
  = if Map_has m k then Map_keys m else Map_keys m ++ [k].
Proof.
  unfold Map_keys, Map_has. induction m as [|[k' v'] m IH]; cbn; [done|].
  destruct (String.eqb_spec k' k) as [->|Hne]; cbn; [done|].
  rewrite IH. by destruct (Map_get m k).
Qed.

Lemma Map_get_delete_ne m k k' :
  k' <> k -> Map_get (Map_delete m k) k' = Map_get m k'.
Proof.
  intros Hne. induction m as [|[k0 v0] m IH]; cbn; [done|].
  destruct (String.eqb_spec k0 k) as [->|]; cbn.
  - by destruct (String.eqb_spec k k').
  - by rewrite IH.
Qed.

Lemma Map_keys_delete_sub m k x : x ∈ Map_keys (Map_delete m k) -> x ∈ Map_keys m.
Proof.
  unfold Map_keys. induction m as [|[k0 v0] m IH]; cbn; [done|].
  destruct (String.eqb k0 k); cbn.
  - intros H. rewrite elem_of_cons. by right.
  - rewrite !elem_of_cons. intros [->|H]; [by left | right; by apply IH].
Qed.

Lemma Map_delete_NoDup m k : NoDup (Map_keys m) -> NoDup (Map_keys (Map_delete m k)).
Proof.
  unfold Map_keys. induction m as [|[k0 v0] m IH]; cbn; [done|].
  rewrite NoDup_cons. intros [Hnot Hnd].
  destruct (String.eqb k0 k); cbn; [done|].
  apply NoDup_cons. split; [|by apply IH].
  intros H. apply Hnot. by apply (Map_keys_delete_sub m k).
Qed.

Lemma Map_get_delete m k : NoDup (Map_keys m) -> Map_get (Map_delete m k) k = None.
Proof.
  unfold Map_keys. induction m as [|[k0 v0] m IH]; cbn; [done|].
  rewrite NoDup_cons. intros [Hnot Hnd].
  destruct (String.eqb_spec k0 k) as [->|Hne]; cbn.
  - by apply Map_get_None_keys.
  - destruct (String.eqb_spec k0 k); [done|]. by apply IH.
Qed.

Lemma Map_delete_absent m k : Map_get m k = None -> Map_delete m k = m.
Proof.
  induction m as [|[k0 v0] m IH]; cbn; [done|].
  destruct (String.eqb_spec k0 k); [done|]. intros H. by rewrite IH.
Qed.

Lemma Map_delete_length m k :
  length (Map_delete m k) = (length m - if Map_has m k then 1 else 0)%nat.
Proof.
  unfold Map_has. induction m as [|[k0 v0] m IH]; cbn; [done|].
  destruct (String.eqb_spec k0 k); cbn; [lia|].
  rewrite IH. destruct (Map_get m k) eqn:E; [|lia].
  destruct m; [done|]. cbn. lia.
Qed.

Lemma Map_set_NoDup m k v : NoDup (Map_keys m) -> NoDup (Map_keys (Map_set m k v)).
Proof.
  intros H. rewrite Map_keys_set. unfold Map_has.
  destruct (Map_get m k) eqn:E; [done|].
  apply NoDup_app. split; [done|]. split; [|apply NoDup_singleton].
  intros x Hx ->%list_elem_of_singleton. by apply Map_get_None_keys in E.
Qed.

Lemma Map_set_Forall (P : string * V -> Prop) m k v :
  P (k, v) -> Forall P m -> Forall P (Map_set m k v).
Proof.
  intros Hkv. induction m as [|[k0 v0] m IH]; cbn; intros H.
  - by constructor.
  - apply Forall_cons in H as [H0 H]. destruct (String.eqb k0 k).
    + by constructor.
    + constructor; [done | by apply IH].
Qed.

Lemma Map_delete_Forall (P : string * V -> Prop) m k :
  Forall P m -> Forall P (Map_delete m k).
Proof.
  induction m as [|[k0 v0] m IH]; cbn; intros H; [done|].
  apply Forall_cons in H as [H0 H]. destruct (String.eqb k0 k); [done|].
  constructor; [done | by apply IH].
Qed.

End MapFacts.

Section PodcastStore.

Context (browser : Browser).

Lemma parseRssFeed_url xml feedUrl self feed :
  fst (parseRssFeed browser xml feedUrl self) = Ok feed -> url feed = feedUrl.
Proof.
  unfold parseRssFeed. destruct (parseChannel browser xml) as [chan|]; [|done].
  unfold bind. destruct (parseItems browser _ _ self) as [[eps|e|] s1]; [|done..].
  by intros [= <-].
Qed.

Lemma fetchAndParseFeed_url feedUrl self feed :
  fst (fetchAndParseFeed browser feedUrl self) = Ok feed -> url feed = feedUrl.
Proof.
  unfold fetchAndParseFeed, bind, this.
  destruct (fetch browser _) as [response|e]; [|done].
  destruct (negb (ok response)); [done|]. apply parseRssFeed_url.
Qed.

(** [addFeed] and [refreshFeed], from the outcome of the fetch. *)
Lemma addFeed_run feedUrl self :
  addFeed browser feedUrl self
  = match fst (fetchAndParseFeed browser feedUrl self) with
    | Ok feed => (Ok feed, with_feed self feedUrl feed)
    | Throw e => (Throw e, self)
    | OutOfFuel => (OutOfFuel, self)
    end.
Proof.
  unfold addFeed, bind.
  rewrite (fetchAndParseFeed_pure browser feedUrl self self eq_refl).
  by destruct (fst (fetchAndParseFeed browser feedUrl self)).
Qed.

Lemma refreshFeed_run feedUrl self : refreshFeed browser feedUrl self = addFeed browser feedUrl self.
Proof. reflexivity. Qed.

Lemma getCollectionItems_run feedUrl options self :
  getCollectionItems browser feedUrl options self
  = match Map_get (feeds self) feedUrl with
    | Some feed =>
        (Ok (page_at (episodes feed) (fun ep => mapEpisode ep feed)
               (nullish (options ≫= limit) (Int 20)) (options ≫= cursor)), self)
    | None =>
        match fst (fetchAndParseFeed browser feedUrl self) with
        | Ok feed =>
            (Ok (page_at (episodes feed) (fun ep => mapEpisode ep feed)
                   (nullish (options ≫= limit) (Int 20)) (options ≫= cursor)),
             with_feed self feedUrl feed)
        | Throw e => (Throw e, self)
        | OutOfFuel => (OutOfFuel, self)
        end
    end.
Proof.
  destruct (Map_get (feeds self) feedUrl) as [feed|] eqn:Hget.
  - by apply getCollectionItems_page.
  - unfold getCollectionItems, bind, this, feeds_set, update, ret.
    rewrite Hget, (fetchAndParseFeed_pure browser feedUrl self self eq_refl).
    destruct (fst (fetchAndParseFeed browser feedUrl self)) as [feed|e|]; [|done..].
    by destruct options as [[l c]|].
Qed.

Lemma with_feed_well_keyed self feedUrl feed :
  url feed = feedUrl -> well_keyed self -> well_keyed (with_feed self feedUrl feed).
Proof.
  intros Hurl [Hnd Hall]. split; cbn.
  - by apply Map_set_NoDup.
  - by apply Map_set_Forall.
Qed.

Lemma restoreFeeds_well_keyed stored : forall self,
  well_keyed self -> well_keyed (snd (restoreFeeds stored self)).
Proof.
  induction stored as [|feed rest IH]; intros self H; [done|].
  cbn [restoreFeeds]. unfold bind, feeds_set, update.
  apply IH. by apply (with_feed_well_keyed self (url feed) feed).
Qed.

End PodcastStore.

Lemma checkForUpdates_well_keyed (browser : Browser) feedUrl marker self :
  well_keyed self ->
  well_keyed (snd (checkForUpdates (H := PodcastSource_MediaSource browser)
                     feedUrl marker self)).
Proof.
  intros Hself. rewrite PodcastSource_checkForUpdates.
  destruct (fst (fetchAndParseFeed browser feedUrl self)) as [feed|e|] eqn:E;
    cbn [snd]; [|done..].
  apply with_feed_well_keyed; [|done]. by apply (fetchAndParseFeed_url browser _ self).
Qed.

(** X1.  The feed store stays a map of feeds filed under their own URL,
    no URL twice: a new adapter is one, and every method that touches the
    store keeps it one, whether it returns or throws. *)
Theorem X1_store_stays_well_keyed :
  (forall proxy, well_keyed (PodcastSource_new proxy))
  /\ (forall (browser : Browser) (self : PodcastSource),
        well_keyed self ->
        (forall feedUrl, well_keyed (snd (addFeed browser feedUrl self)))
        /\ (forall feedUrl, well_keyed (snd (refreshFeed browser feedUrl self)))
        /\ (forall feedUrl options,
              well_keyed (snd (getCollectionItems browser feedUrl options self)))
        /\ (forall feedUrl marker,
              well_keyed (snd (checkForUpdates (H := PodcastSource_MediaSource browser)
                                 feedUrl marker self)))
        /\ (forall feedUrl, well_keyed (snd (removeFeed feedUrl self)))
        /\ (forall stored, well_keyed (snd (restoreFeeds stored self)))
        /\ (forall proxy, well_keyed (snd (setCorsProxyUrl proxy self)))).
Proof.
  split.
  { intros proxy. split; cbn; [apply NoDup_nil_2 | constructor]. }
  intros browser self Hself.
  assert (Hadd : forall feedUrl, well_keyed (snd (addFeed browser feedUrl self))).
  { intros feedUrl. rewrite addFeed_run.
    destruct (fst (fetchAndParseFeed browser feedUrl self)) as [feed|e|] eqn:E;
      cbn [snd]; [|done..].
    apply with_feed_well_keyed; [|done]. by apply (fetchAndParseFeed_url browser _ self). }
  assert (Hfed : forall feedUrl,
             match fst (fetchAndParseFeed browser feedUrl self) with
             | Ok feed => well_keyed (with_feed self feedUrl feed)
             | _ => True
             end).
  { intros feedUrl.
    destruct (fst (fetchAndParseFeed browser feedUrl self)) as [feed|e|] eqn:E; [|done..].
    apply with_feed_well_keyed; [|done]. by apply (fetchAndParseFeed_url browser _ self). }
  split; [exact Hadd|]. split; [exact Hadd|]. split; [|split; [|split; [|split]]].
  - intros feedUrl options. rewrite getCollectionItems_run. specialize (Hfed feedUrl).
    destruct (Map_get (feeds self) feedUrl); [apply Hself|].
    by destruct (fst (fetchAndParseFeed browser feedUrl self)).
  - intros feedUrl marker. by apply checkForUpdates_well_keyed.
  - intros feedUrl. split; cbn.
    + apply Map_delete_NoDup, Hself.
    + apply Map_delete_Forall, Hself.
  - intros stored. by apply restoreFeeds_well_keyed.
  - intros proxy. apply Hself.
Qed.

Lemma sample_podcasts_well_keyed : well_keyed sample_podcasts.
Proof.
  split; cbn.
  - apply NoDup_singleton.
  - by repeat constructor.
Qed.

Lemma X1_store_stays_well_keyed_witness :
  well_keyed sample_podcasts
  /\ well_keyed (snd (checkForUpdates (H := PodcastSource_MediaSource sample_browser)
                        "https://example.com/archive.xml" "ep-2" sample_podcasts)).
Proof.
  split; [exact sample_podcasts_well_keyed|].
  exact (proj1 (proj2 (proj2 (proj2
           (proj2 X1_store_stays_well_keyed sample_browser sample_podcasts
              sample_podcasts_well_keyed))))
           "https://example.com/archive.xml" "ep-2").
Defined.

Lemma restoreFeeds_values proxy : forall (m2 m1 : Map PodcastFeed),
  NoDup (Map_keys (m1 ++ m2)) ->
  Forall (fun kv => url (snd kv) = fst kv) m2 ->
  restoreFeeds (Map_values m2) {| feeds := m1; corsProxyUrl := proxy |}
  = (Ok tt, {| feeds := m1 ++ m2; corsProxyUrl := proxy |}).
Proof.
  induction m2 as [|[k v] m2 IH]; intros m1 Hnd Hall.
  - cbn. by rewrite app_nil_r.
  - apply Forall_cons in Hall as [Hkv Hall]. cbn in Hkv.
    change (Map_values ((k, v) :: m2)) with (v :: Map_values m2).
    cbn [restoreFeeds]. unfold bind, feeds_set, update.
    cbn [feeds corsProxyUrl]. rewrite Hkv.
    rewrite Map_set_fresh.
    + rewrite (IH (m1 ++ [(k, v)])); [by rewrite <- app_assoc | by rewrite <- app_assoc | done].
    + apply Map_get_None_keys. unfold Map_keys in *.
      rewrite fmap_app in Hnd. apply NoDup_app in Hnd as (_ & Hdisj & _).
      intros Hin. apply (Hdisj k Hin). cbn. apply list_elem_of_here.
Qed.

(** X2.  Persistence round trip: the feeds [getFeeds] hands out, given to
    [restoreFeeds] on a new adapter with the same proxy, rebuild the
    adapter exactly, order included, without any fetch. *)
Theorem X2_getFeeds_restoreFeeds_round_trip (self : PodcastSource)
    (stored : list PodcastFeed) :
  well_keyed self ->
  fst (getFeeds self) = Ok stored ->
  restoreFeeds stored (PodcastSource_new (corsProxyUrl self)) = (Ok tt, self).
Proof.
  intros [Hnd Hall] [= <-]. unfold PodcastSource_new.
  rewrite (restoreFeeds_values (corsProxyUrl self) (feeds self) []); [by destruct self|done..].
Qed.

Lemma X2_getFeeds_restoreFeeds_round_trip_witness :
  exists stored,
    fst (getFeeds sample_podcasts) = Ok stored
    /\ length stored = 1%nat
    /\ restoreFeeds stored (PodcastSource_new None) = (Ok tt, sample_podcasts).
Proof.
  eexists. split; [reflexivity|]. split; [reflexivity|].
  exact (X2_getFeeds_restoreFeeds_round_trip sample_podcasts _
           sample_podcasts_well_keyed eq_refl).
Defined.

(** X3.  [removeFeed] answers whether the URL was stored.  Afterwards the
    URL is not stored, every other feed is as it was, the number of feeds
    has gone down by one exactly when the answer was true, and removing
    the URL again answers false and changes nothing. *)
Theorem X3_removeFeed (self : PodcastSource) (feedUrl : string) :
  well_keyed self ->
  exists self',
    removeFeed feedUrl self = (Ok (Map_has (feeds self) feedUrl), self')
    /\ Map_get (feeds self') feedUrl = None
    /\ (forall other, other <> feedUrl ->
          Map_get (feeds self') other = Map_get (feeds self) other)
    /\ length (feeds self')
       = (length (feeds self) - if Map_has (feeds self) feedUrl then 1 else 0)%nat
    /\ corsProxyUrl self' = corsProxyUrl self
    /\ removeFeed feedUrl self' = (Ok false, self').
Proof.
  intros [Hnd Hall]. eexists. split; [reflexivity|]. cbn [feeds corsProxyUrl].
  pose proof (Map_get_delete (feeds self) feedUrl Hnd) as Hgone.
  split; [done|]. split; [intros other Hne; by apply Map_get_delete_ne|].
  split; [apply Map_delete_length|]. split; [done|].
  unfold removeFeed, bind, this, update, ret, Map_has. cbn [feeds corsProxyUrl].
  rewrite Hgone. by rewrite (Map_delete_absent _ _ Hgone).
Qed.

Lemma X3_removeFeed_witness :
  exists self',
    removeFeed "https://example.com/feed.xml" sample_podcasts = (Ok true, self')
    /\ feeds self' = [].
Proof.
  destruct (X3_removeFeed sample_podcasts "https://example.com/feed.xml"
              sample_podcasts_well_keyed) as (self' & Hrun & _).
  exists self'. split; [exact Hrun|].
  vm_compute in Hrun. by injection Hrun as <-.
Defined.

(** X4.  [addFeed] is all or nothing, and a feed is known by the URL asked
    for, never by a proxy URL: when it returns, the feed carries [feedUrl]
    as its [url] and is stored under [feedUrl], the other feeds and the
    proxy setting being as they were; when it throws, the adapter is
    unchanged. *)
Theorem X4_addFeed_all_or_nothing (browser : Browser) (feedUrl : string)
    (self self' : PodcastSource) (r : outcome PodcastFeed) :
  addFeed browser feedUrl self = (r, self') ->
  match r with
  | Ok feed =>
      url feed = feedUrl
      /\ Map_get (feeds self') feedUrl = Some feed
      /\ (forall other, other <> feedUrl ->
            Map_get (feeds self') other = Map_get (feeds self) other)
      /\ corsProxyUrl self' = corsProxyUrl self
  | _ => self' = self
  end.
Proof.
  rewrite addFeed_run.
  destruct (fst (fetchAndParseFeed browser feedUrl self)) as [feed|e|] eqn:E;
    intros [= <- <-]; [|done..].
  split; [by apply (fetchAndParseFeed_url browser _ self)|].
  split; [apply Map_get_set|]. split; [|done].
  intros other Hne. by apply Map_get_set_ne.
Qed.

Lemma X4_addFeed_all_or_nothing_witness :
  exists feed self',
    addFeed proxied_browser "https://example.com/feed.xml"
      (PodcastSource_new (Some "https://proxy.example.com/?url=")) = (Ok feed, self')
    /\ url feed = "https://example.com/feed.xml"
    /\ Map_keys (feeds self') = ["https://example.com/feed.xml"].
Proof.
  eexists _, _. split; [reflexivity|].
  split; [|reflexivity].
  exact (proj1 (X4_addFeed_all_or_nothing proxied_browser "https://example.com/feed.xml"
                  (PodcastSource_new (Some "https://proxy.example.com/?url="))
                  _ (Ok _) eq_refl)).
Defined.

(** X5.  Once [getCollectionItems] has returned a page of a feed, the feed
    is in the store: the same call returns the same page and changes
    nothing, whatever the network has become. *)
Theorem X5_getCollectionItems_reads_the_store (browser browser' : Browser)
    (feedUrl : string) (options : option FetchMediaOptions)
    (self self' : PodcastSource) (page : PaginatedResult MediaItem) :
  getCollectionItems browser feedUrl options self = (Ok page, self') ->
  getCollectionItems browser' feedUrl options self' = (Ok page, self').
Proof.
  rewrite (getCollectionItems_run browser).
  destruct (Map_get (feeds self) feedUrl) as [feed|] eqn:Hget.
  - intros [= <- <-]. by rewrite getCollectionItems_run, Hget.
  - destruct (fst (fetchAndParseFeed browser feedUrl self)) as [feed|e|]; [|done..].
    intros [= <- <-]. rewrite getCollectionItems_run. cbn [with_feed feeds].
    by rewrite Map_get_set.
Qed.

Lemma X5_getCollectionItems_reads_the_store_witness :
  exists page self',
    getCollectionItems sample_browser "https://example.com/feed.xml" None fresh_podcasts
      = (Ok page, self')
    /\ getCollectionItems offline "https://example.com/feed.xml" None self'
       = (Ok page, self')
    /\ map item_id (items page) = ["ep-3"; "ep-2"; "ep-1"].
Proof.
  eexists _, _. split; [reflexivity|]. split; [|reflexivity].
  exact (X5_getCollectionItems_reads_the_store sample_browser offline
           "https://example.com/feed.xml" None fresh_podcasts _ _ eq_refl).
Defined.

(** ** The pages of [PodcastSource] *)

Lemma well_keyed_collection_ids (self : PodcastSource) :
  well_keyed self ->
  map coll_id (map mapFeedToCollection (Map_values (feeds self))) = Map_keys (feeds self).
Proof.
  intros [_ Hall]. unfold Map_values, Map_keys.
  induction Hall as [|[k v] m Hkv Hall IH]; [done|].
  cbn in *. by rewrite IH, Hkv.
Qed.

Lemma getAvailableMedia_all (self : PodcastSource) :
  getAvailableMedia None self
  = (Ok {| items := map mapFeedToCollection (Map_values (feeds self));
           nextCursor := None;
           total := Some (length_ (Map_values (feeds self))) |}, self).
Proof. rewrite getAvailableMedia_page. cbn [mbind option_bind nullish from_option id]. by rewrite page_at_whole. Qed.

(** X6.  The collections are listed in the order their feeds were first
    added: an update check on a stored feed leaves the list of collection
    ids as it was, and one that brings in a new feed puts its id last. *)
Theorem X6_update_keeps_feed_order (browser : Browser) (feedUrl marker : string)
    (self self' : PodcastSource) (result : list MediaItem) :
  well_keyed self ->
  checkForUpdates (H := PodcastSource_MediaSource browser) feedUrl marker self
    = (Ok result, self') ->
  exists listed listed',
    getAvailableMedia None self = (Ok listed, self)
    /\ getAvailableMedia None self' = (Ok listed', self')
    /\ map coll_id (items listed) = Map_keys (feeds self)
    /\ map coll_id (items listed')
       = if Map_has (feeds self) feedUrl
         then map coll_id (items listed)
         else map coll_id (items listed) ++ [feedUrl].
Proof.
  intros Hself Hrun.
  assert (Hself' : well_keyed self').
  { pose proof (checkForUpdates_well_keyed browser feedUrl marker self Hself) as H.
    by rewrite Hrun in H. }
  eexists _, _. split; [apply getAvailableMedia_all|].
  split; [apply getAvailableMedia_all|]. cbn [items].
  rewrite !well_keyed_collection_ids by done. split; [done|].
  rewrite PodcastSource_checkForUpdates in Hrun.
  destruct (fst (fetchAndParseFeed browser feedUrl self)) as [feed|e|]; [|done..].
  injection Hrun as _ <-. cbn [with_feed feeds]. apply Map_keys_set.
Qed.

Lemma X6_update_keeps_feed_order_witness :
  exists self' listed',
    well_keyed sample_podcasts
    /\ snd (checkForUpdates (H := PodcastSource_MediaSource sample_browser)
              "https://example.com/archive.xml" "ep-2" sample_podcasts) = self'
    /\ getAvailableMedia None self' = (Ok listed', self')
    /\ map coll_id (items listed')
       = ["https://example.com/feed.xml"; "https://example.com/archive.xml"].
Proof.
  destruct (X6_update_keeps_feed_order sample_browser
              "https://example.com/archive.xml" "ep-2" sample_podcasts _ _
              sample_podcasts_well_keyed eq_refl)
    as (listed & listed' & Hbefore & Hafter & Hids & Hids').
  eexists _, listed'. split; [exact sample_podcasts_well_keyed|].
  split; [reflexivity|]. split; [exact Hafter|].
  rewrite Hids', Hids. reflexivity.
Defined.

Lemma page_at_within {A B} (all : list A) (f : A -> B) (l o : Z) (cur : option string) :
  offset_of (with_cursor None cur) = Int o ->
  0 <= o -> 0 <= l ->
  page_within (page_at all f (Int l) cur) (Z.of_nat (length all)) o l.
Proof.
  intros Hcur Ho Hl.
  destruct (Z_of_nat_complete o Ho) as [o' ->].
  destruct (Z_of_nat_complete l Hl) as [l' ->].
  unfold page_within, page_at.
  change (offset_of (with_cursor (Some (Int (Z.of_nat l'))) cur))
    with (offset_of (with_cursor None cur)).
  rewrite Hcur. cbn [items nextCursor total add lt length_].
  rewrite slice_nat, length_map, length_take, length_drop.
  split; [lia|]. split; [|split; [|done]].
  - destruct (Z.ltb_spec (Z.of_nat o' + Z.of_nat l') (Z.of_nat (length all)));
      [split; [done|lia] | done].
  - intros c. destruct (Z.of_nat o' + Z.of_nat l' <? Z.of_nat (length all)); [|done].
    by intros [= <-].
Qed.

(** ** The recency listing of [PodcastSource] *)

Section RecentFacts.

Lemma collect_episodes_spec since feed eps : forall acc,
  collect_episodes since feed eps acc
  = acc ++ map (fun ep => (ep, feed))
             (List.filter (fun ep => negb (not_newer since ep)) eps).
Proof.
  induction eps as [|ep eps IH]; intros acc; cbn.
  - by rewrite app_nil_r.
  - destruct (not_newer since ep); cbn; rewrite IH; [done|]. by rewrite <- app_assoc.
Qed.

Lemma collect_feeds_spec since all : forall acc,
  collect_feeds since all acc = acc ++ recent_candidates since all.
Proof.
  unfold recent_candidates. induction all as [|feed all IH]; intros acc; cbn.
  - by rewrite app_nil_r.
  - rewrite IH, collect_episodes_spec. by rewrite <- app_assoc.
Qed.

Lemma insert_by_perm {A} (cmp : A -> A -> Z) x l : insert_by cmp x l ≡ₚ x :: l.
Proof.
  induction l as [|y l IH]; cbn; [done|].
  destruct (0 <? cmp y x); [done|]. rewrite IH. apply Permutation_swap.
Qed.

Lemma fold_insert_perm {A} (cmp : A -> A -> Z) l : forall acc,
  fold_left (fun sorted x => insert_by cmp x sorted) l acc ≡ₚ acc ++ l.
Proof.
  induction l as [|x l IH]; intros acc; cbn.
  - by rewrite app_nil_r.
  - rewrite IH, insert_by_perm. apply Permutation_middle.
Qed.

Lemma Array_sort_perm {A} (cmp : A -> A -> Z) l : Array_sort cmp l ≡ₚ l.
Proof. apply (fold_insert_perm cmp l []). Qed.

Lemma ordered_by_cons {A} (cmp : A -> A -> Z) a l :
  ordered_by cmp (a :: l)
  <-> match l with [] => True | b :: _ => cmp a b <= 0 end /\ ordered_by cmp l.
Proof. destruct l; cbn; tauto. Qed.

Lemma insert_by_ordered {A} (cmp : A -> A -> Z) x l :
  (forall a b, 0 < cmp a b -> cmp b a <= 0) ->
  ordered_by cmp l -> ordered_by cmp (insert_by cmp x l).
Proof.
  intros Hanti. induction l as [|y l IH]; [done|].
  intros Hord. cbn [insert_by].
  destruct (Z.ltb_spec 0 (cmp y x)) as [Hgt|Hle].
  - apply ordered_by_cons. split; [by apply Hanti | done].
  - apply ordered_by_cons in Hord as [Hhead Hord].
    apply ordered_by_cons. split; [|by apply IH].
    destruct l as [|z l]; cbn [insert_by]; [done|].
    by destruct (0 <? cmp z x).
Qed.

Lemma Array_sort_ordered {A} (cmp : A -> A -> Z) l :
  (forall a b, 0 < cmp a b -> cmp b a <= 0) ->
  ordered_by cmp (Array_sort cmp l).
Proof.
  intros Hanti. unfold Array_sort.
  assert (H : forall acc, ordered_by cmp acc ->
                ordered_by cmp (fold_left (fun sorted x => insert_by cmp x sorted) l acc)).
  { induction l as [|x l IH]; intros acc Hacc; [done|].
    cbn. by apply IH, insert_by_ordered. }
  by apply H.
Qed.

Lemma ordered_by_drop {A} (cmp : A -> A -> Z) n : forall l,
  ordered_by cmp l -> ordered_by cmp (drop n l).
Proof.
  induction n as [|n IH]; intros l H; [done|].
  destruct l as [|a l]; [done|]. cbn. apply IH.
  by apply ordered_by_cons in H as [_ H].
Qed.

Lemma ordered_by_take {A} (cmp : A -> A -> Z) n : forall l,
  ordered_by cmp l -> ordered_by cmp (take n l).
Proof.
  induction n as [|n IH]; intros l H; [done|].
  destruct l as [|a l]; [done|]. cbn [take].
  apply ordered_by_cons in H as [Hhead H].
  apply ordered_by_cons. split; [|by apply IH].
  by destruct l as [|b l]; destruct n.
Qed.

Lemma ordered_by_map {A B} (cmp : B -> B -> Z) (f : A -> B) l :
  ordered_by (fun a b => cmp (f a) (f b)) l -> ordered_by cmp (map f l).
Proof.
  induction l as [|a l IH]; [done|]. intros H.
  apply ordered_by_cons in H as [Hhead H]. cbn [map].
  apply ordered_by_cons. split; [|by apply IH]. by destruct l.
Qed.

Context (localeCompare : string -> string -> Z).

Lemma getRecentMedia_run since options self :
  PodcastSource_getRecentMedia localeCompare since options self
  = (Ok (page_at
           (Array_sort (by_date_desc localeCompare)
              (recent_candidates since (Map_values (feeds self))))
           (fun ef => mapEpisode (fst ef) (snd ef))
           (nullish (options ≫= limit) (Int 20)) (options ≫= cursor)), self).
Proof.
  unfold PodcastSource_getRecentMedia, bind, this, ret.
  rewrite (collect_feeds_spec since _ []). cbn [app].
  by destruct options as [[l c]|].
Qed.

Lemma recent_candidates_elem since all ep feed :
  (ep, feed) ∈ recent_candidates since all ->
  feed ∈ all /\ ep ∈ episodes feed /\ not_newer since ep = false.
Proof.
  unfold recent_candidates. rewrite list_elem_of_In, in_flat_map.
  intros (f & Hf & Hin). apply in_map_iff in Hin as (e & [= -> ->] & He).
  apply filter_In in He as [He Hkeep].
  split; [by apply list_elem_of_In|]. split; [by apply list_elem_of_In|].
  by destruct (not_newer since ep).
Qed.

End RecentFacts.

(** X7.  Page bounds.  With a cursor that reads as the offset [o >= 0] and a
    page size in force [l >= 0], each of the three listings of
    [PodcastSource] returns [min l (max 0 (len - o))] items of the [len] it
    has, reports [total = len], names a next cursor exactly when items remain
    after the page, and that cursor is the text of [o + l]. *)
Theorem X7_page_bounds (browser : Browser) (localeCompare : string -> string -> Z)
    (since : option string) (self : PodcastSource)
    (size : option number) (cur : option string) (o : Z) :
  offset_of (with_cursor None cur) = Int o ->
  0 <= o ->
  (forall l, nullish size (length_ (Map_values (feeds self))) = Int l -> 0 <= l ->
     exists page,
       getAvailableMedia (with_cursor size cur) self = (Ok page, self)
       /\ page_within page (Z.of_nat (length (Map_values (feeds self)))) o l)
  /\ (forall url feed l,
        Map_get (feeds self) url = Some feed ->
        nullish size (Int 20) = Int l -> 0 <= l ->
        exists page,
          getCollectionItems browser url (with_cursor size cur) self = (Ok page, self)
          /\ page_within page (Z.of_nat (length (episodes feed))) o l)
  /\ (forall l,
        nullish size (Int 20) = Int l -> 0 <= l ->
        exists page,
          PodcastSource_getRecentMedia localeCompare since (with_cursor size cur) self
            = (Ok page, self)
          /\ page_within page
               (Z.of_nat (length (recent_candidates since (Map_values (feeds self)))))
               o l).
Proof.
  intros Hcur Ho. split; [|split].
  - intros l Hl Hl0. eexists. split; [apply getAvailableMedia_page|].
    cbn [with_cursor mbind option_bind limit cursor]. rewrite Hl.
    by apply page_at_within.
  - intros url feed l Hfeed Hl Hl0. eexists.
    split; [by apply getCollectionItems_page|].
    cbn [with_cursor mbind option_bind limit cursor]. rewrite Hl.
    by apply page_at_within.
  - intros l Hl Hl0. eexists. split; [apply getRecentMedia_run|].
    cbn [with_cursor mbind option_bind limit cursor]. rewrite Hl.
    rewrite <- (Permutation_length (Array_sort_perm (by_date_desc localeCompare) _)).
    by apply page_at_within.
Qed.

Lemma X7_page_bounds_witness :
  offset_of (with_cursor None (Some "1")) = Int 1
  /\ exists page,
       getCollectionItems sample_browser "https://example.com/feed.xml"
         (with_cursor (Some (Int 1)) (Some "1")) sample_podcasts
         = (Ok page, sample_podcasts)
       /\ page_within page 3 1 1
       /\ map item_id (items page) = ["ep-2"]
       /\ nextCursor page = Some "2".
Proof.
  split; [reflexivity|].
  destruct (proj1 (proj2 (X7_page_bounds sample_browser compare_code_units None
                            sample_podcasts (Some (Int 1)) (Some "1") 1
                            eq_refl ltac:(lia)))
              "https://example.com/feed.xml" _ 1 eq_refl eq_refl ltac:(lia))
    as (page & Hrun & Hin).
  exists page. split; [exact Hrun|]. split; [exact Hin|].
  vm_compute in Hrun. injection Hrun as <-. split; reflexivity.
Defined.

Lemma slice_elem_of {A} (l : list A) (a b : number) (x : A) : x ∈ slice l a b -> x ∈ l.
Proof.
  unfold slice. intros H.
  eapply elem_of_sublist; [exact H|].
  etrans; [apply sublist_take | apply sublist_drop].
Qed.

Lemma page_at_first_all {A B} (all : list A) (f : A -> B) (l : Z) :
  Z.of_nat (length all) <= l ->
  items (page_at all f (Int l) None) = map f all.
Proof.
  intros Hl. assert (Hl0 : 0 <= l) by lia.
  destruct (Z_of_nat_complete l Hl0) as [l' ->].
  unfold page_at. cbn [with_cursor offset_of mbind option_bind cursor truthy add items].
  change (Int 0) with (Int (Z.of_nat 0)).
  change (Int (0 + Z.of_nat l')) with (Int (Z.of_nat 0 + Z.of_nat l')).
  rewrite slice_nat. cbn [drop]. f_equal. apply take_ge. lia.
Qed.

(** X8.  [getRecentMedia] never fails and leaves the adapter as it was.
    Every item of a page is an episode of a stored feed; with a non-empty
    [since], an item that carries a date is strictly later than [since]
    (episodes without a date are never filtered out).  Without a cursor and
    with a page size no smaller than the number of episodes kept, the page
    holds exactly the kept episodes of all feeds, each as often as it is
    stored. *)
Theorem X8_getRecentMedia_since (localeCompare : string -> string -> Z)
    (since : option string) (options : option FetchMediaOptions) (self : PodcastSource) :
  exists page,
    PodcastSource_getRecentMedia localeCompare since options self = (Ok page, self)
    /\ (forall item, item ∈ items page ->
          exists feed ep,
            feed ∈ Map_values (feeds self) /\ ep ∈ episodes feed
            /\ item = mapEpisode ep feed
            /\ (forall s d, since = Some s -> s <> "" ->
                  item_publishedAt item = Some d -> d <> "" ->
                  String.leb d s = false))
    /\ (forall l,
          options ≫= cursor = None ->
          nullish (options ≫= limit) (Int 20) = Int l ->
          Z.of_nat (length (recent_candidates since (Map_values (feeds self)))) <= l ->
          items page
          ≡ₚ map (fun ef => mapEpisode (fst ef) (snd ef))
               (recent_candidates since (Map_values (feeds self)))).
Proof.
  eexists. split; [apply getRecentMedia_run|]. split.
  - intros item Hin. unfold page_at in Hin. cbn [items] in Hin.
    apply list_elem_of_In, in_map_iff in Hin as ([ep feed] & <- & Hin).
    apply list_elem_of_In, slice_elem_of in Hin.
    rewrite (Array_sort_perm (by_date_desc localeCompare) _) in Hin.
    apply recent_candidates_elem in Hin as (Hfeed & Hep & Hkeep).
    exists feed, ep. split; [done|]. split; [done|]. split; [done|].
    intros s d -> Hs. cbn [mapEpisode item_publishedAt fst snd]. intros Hd Hne.
    unfold not_newer in Hkeep. rewrite Hd in Hkeep.
    rewrite !truthy_Some in Hkeep by done. exact Hkeep.
  - intros l -> -> Hl. rewrite page_at_first_all.
    + apply Permutation_map, Array_sort_perm.
    + by rewrite (Permutation_length (Array_sort_perm (by_date_desc localeCompare) _)).
Qed.

Lemma X8_getRecentMedia_since_witness :
  exists page,
    PodcastSource_getRecentMedia compare_code_units (Some "2024-07-02T12:00:00.000Z") None
      sample_podcasts = (Ok page, sample_podcasts)
    /\ items page
       ≡ₚ map (fun ef => mapEpisode (fst ef) (snd ef))
            (recent_candidates (Some "2024-07-02T12:00:00.000Z")
               (Map_values (feeds sample_podcasts)))
    /\ map item_id (items page) = ["ep-3"].
Proof.
  destruct (X8_getRecentMedia_since compare_code_units (Some "2024-07-02T12:00:00.000Z")
              None sample_podcasts) as (page & Hrun & _ & Hall).
  exists page. split; [exact Hrun|].
  split; [apply (Hall 20 eq_refl eq_refl); vm_compute; discriminate|].
  vm_compute in Hrun. injection Hrun as <-. reflexivity.
Defined.

Lemma ascii_compare_N (a b : ascii) :
  Ascii.compare a b = N.compare (N_of_ascii a) (N_of_ascii b).
Proof. reflexivity. Qed.

Lemma string_compare_trans : forall a b c : string,
  String.compare a b <> Gt -> String.compare b c <> Gt -> String.compare a c <> Gt.
Proof.
  induction a as [|x a IH]; intros [|y b] [|z c]; cbn; try done.
  rewrite !ascii_compare_N.
  destruct (N.compare_spec (N_of_ascii x) (N_of_ascii y)) as [Exy|Hxy|Hxy]; [| |done].
  - rewrite Exy. destruct (N.compare_spec (N_of_ascii y) (N_of_ascii z)); [|done..].
    apply IH.
  - intros _.
    destruct (N.compare_spec (N_of_ascii y) (N_of_ascii z)) as [Eyz|Hyz|Hyz]; [| |done].
    + rewrite <- Eyz. by rewrite (proj2 (N.compare_lt_iff _ _) Hxy).
    + by rewrite (proj2 (N.compare_lt_iff _ _) (N.lt_trans _ _ _ Hxy Hyz)).
Qed.

Lemma compare_code_units_consistent : consistent compare_code_units.
Proof.
  split.
  - intros a b. unfold compare_code_units. rewrite (String.compare_antisym a b).
    destruct (String.compare b a); cbn; lia.
  - intros a b c. unfold compare_code_units.
    pose proof (string_compare_trans a b c) as H.
    destruct (String.compare a b), (String.compare b c), (String.compare a c);
      try lia; intros _ _; exfalso; by apply H.
Qed.

(** X9.  With a consistent comparison of date strings, every page of
    [getRecentMedia] lists its items newest first by that comparison, an
    item without a date counting as the empty string. *)
Theorem X9_getRecentMedia_newest_first (localeCompare : string -> string -> Z)
    (since : option string) (options : option FetchMediaOptions) (self : PodcastSource) :
  consistent localeCompare ->
  exists page,
    PodcastSource_getRecentMedia localeCompare since options self = (Ok page, self)
    /\ ordered_by (newer_first localeCompare) (items page).
Proof.
  intros [Hanti _]. eexists. split; [apply getRecentMedia_run|].
  unfold page_at. cbn [items]. apply ordered_by_map.
  unfold slice. apply ordered_by_take, ordered_by_drop.
  apply (Array_sort_ordered (by_date_desc localeCompare)).
  intros a b. unfold by_date_desc. intros H%Hanti. lia.
Qed.

Lemma X9_getRecentMedia_newest_first_witness :
  consistent compare_code_units
  /\ exists page,
       PodcastSource_getRecentMedia compare_code_units None None
         (snd (addFeed sample_browser "https://example.com/archive.xml" fresh_podcasts))
         = (Ok page,
            snd (addFeed sample_browser "https://example.com/archive.xml" fresh_podcasts))
       /\ ordered_by (newer_first compare_code_units) (items page)
       /\ map item_id (items page) = ["ep-3"; "ep-2"; "ep-1"].
Proof.
  split; [exact compare_code_units_consistent|].
  destruct (X9_getRecentMedia_newest_first compare_code_units None None
              (snd (addFeed sample_browser "https://example.com/archive.xml" fresh_podcasts))
              compare_code_units_consistent) as (page & Hrun & Hord).
  exists page. split; [exact Hrun|]. split; [exact Hord|].
  vm_compute in Hrun. injection Hrun as <-. reflexivity.
Defined.

(** X10.  Paging through [getRecentMedia]: first call without a cursor, each
    next call with the [nextCursor] of the page before, page sizes omitted
    or positive.  The walk ends on a page without [nextCursor], and its
    pages, put end to end, are the listing a single call returns when its
    page size is the number of episodes kept: every kept episode once, in
    the same order. *)
Theorem X10_recent_pages_concatenate (localeCompare : string -> string -> Z)
    (since : option string) (self : PodcastSource) (size : nat -> option number) :
  (forall i, page_size_ok (size i)) ->
  let kept := recent_candidates since (Map_values (feeds self)) in
  exists pages final whole,
    fetch_all_pages (S (length kept))
      (fun i cur =>
         PodcastSource_getRecentMedia localeCompare since (with_cursor (size i) cur))
      0 None self
      = (Ok pages, self)
    /\ PodcastSource_getRecentMedia localeCompare since
         (with_cursor (Some (length_ kept)) None) self
       = (Ok whole, self)
    /\ concat (map items pages) = items whole
    /\ nextCursor whole = None
    /\ items whole ≡ₚ map (fun ef => mapEpisode (fst ef) (snd ef)) kept
    /\ last pages = Some final
    /\ nextCursor final = None.
Proof.
  intros Hsize kept.
  set (sorted := Array_sort (by_date_desc localeCompare) kept).
  assert (Hlen : length sorted = length kept)
    by apply Permutation_length, Array_sort_perm.
  destruct (fetch_all_pages_page_at sorted (fun ef => mapEpisode (fst ef) (snd ef))
              (fun i => page_count (size i) 20)
              (fun i cur =>
                 PodcastSource_getRecentMedia localeCompare since
                   (with_cursor (size i) cur)) self)
    with (fuel := S (length kept)) (i := 0%nat) (o := 0%nat) (cur := @None string)
    as (pages & final & Hrun & Hcat & Hlast & Hnone).
  { intros i cur. rewrite getRecentMedia_run.
    cbn [with_cursor mbind option_bind limit cursor].
    change (Int 20) with (Int (Z.of_nat 20)).
    by rewrite (proj1 (page_count_ok (size i) 20 (Hsize i))). }
  { intros i. destruct (proj2 (page_count_ok (size i) 20 (Hsize i))) as [H| ->];
      left; [done|lia]. }
  { done. }
  { lia. }
  eexists pages, final, _. split; [exact Hrun|].
  split; [apply getRecentMedia_run|].
  cbn [with_cursor mbind option_bind limit cursor nullish from_option id].
  fold kept. fold sorted. unfold length_. rewrite <- Hlen.
  change (Int (Z.of_nat (length sorted))) with (length_ sorted).
  rewrite page_at_whole. cbn [items nextCursor].
  split; [by rewrite Hcat|]. split; [done|].
  split; [apply Permutation_map, Array_sort_perm|]. done.
Qed.

Lemma X10_recent_pages_concatenate_witness :
  (forall i : nat, page_size_ok (if decide (i = 0%nat) then Some (Int 2) else None))
  /\ exists pages,
       fetch_all_pages 4
         (fun i cur =>
            PodcastSource_getRecentMedia compare_code_units None
              (with_cursor (if decide (i = 0%nat) then Some (Int 2) else None) cur))
         0 None sample_podcasts
         = (Ok pages, sample_podcasts)
       /\ map item_id (concat (map items pages)) = ["ep-3"; "ep-2"; "ep-1"]
       /\ map nextCursor pages = [Some "2"; None].
Proof.
  assert (Hsize : forall i : nat,
             page_size_ok (if decide (i = 0%nat) then Some (Int 2) else None)).
  { intros i. by destruct (decide (i = 0%nat)). }
  split; [exact Hsize|].
  destruct (X10_recent_pages_concatenate compare_code_units None sample_podcasts _ Hsize)
    as (pages & final & whole & Hrun & _).
  exists pages. split; [exact Hrun|].
  vm_compute in Hrun. injection Hrun as <-. split; reflexivity.
Defined.

(** ** Parsing a feed *)

Lemma truthy_inv (o : option string) :
  truthy o = true -> exists u, o = Some u /\ u <> "".
Proof.
  destruct o as [u|]; cbn; [|done].
  destruct (String.eqb_spec u ""); [done|]. by exists u.
Qed.

Section Parse.

Context (browser : Browser).

Lemma parseItem_run item eps self :
  parseItem browser item eps self
  = if has_audio item
    then if date_ok browser item
         then (Ok (eps ++ [ {| guid := nullish (rss_guid item)
                                         (nullish (rss_enclosure_url item) "");
                               ep_title := nullish (rss_title item) "Untitled Episode";
                               ep_description := rss_description item;
                               audioUrl := nullish (rss_enclosure_url item) "";
                               ep_imageUrl := rss_href item;
                               ep_publishedAt :=
                                 if truthy (rss_pubDate item)
                                 then toISOString browser (nullish (rss_pubDate item) "")
                                 else None;
                               ep_duration :=
                                 if truthy (getElementByTagNameNS_duration item)
                                 then Some (parseDuration browser
                                              (nullish (getElementByTagNameNS_duration item) ""))
                                 else None |} ]), self)
         else (Throw (RangeError "Invalid time value"), self)
    else (Ok eps, self).
Proof.
  unfold parseItem, has_audio, date_ok, bind.
  destruct (truthy (rss_enclosure_url item)); [|done]. cbn [negb].
  destruct (truthy (rss_pubDate item)); [|done]. cbn [negb orb].
  by destruct (toISOString browser _).
Qed.

Lemma parseItems_spec its : forall eps self,
  if forallb (date_ok browser) (List.filter has_audio its)
  then exists new,
         parseItems browser its eps self = (Ok (eps ++ new), self)
         /\ Forall2 (episode_of_item browser) (List.filter has_audio its) new
  else parseItems browser its eps self = (Throw (RangeError "Invalid time value"), self).
Proof.
  induction its as [|item its IH]; intros eps self.
  - exists []. by rewrite app_nil_r.
  - cbn [parseItems List.filter]. unfold bind. rewrite parseItem_run.
    destruct (has_audio item) eqn:Haudio.
    + cbn [forallb]. destruct (date_ok browser item) eqn:Hdate; cbn [andb]; [|done].
      match goal with |- context [parseItems browser its ?e self] =>
        specialize (IH e self) end.
      destruct (forallb _ _); [|done].
      destruct IH as (new & -> & Hnew). eexists (_ :: new).
      split; [by rewrite <- app_assoc|].
      constructor; [|done].
      apply truthy_inv in Haudio as (u & Hu & Hne).
      unfold episode_of_item. cbn. rewrite Hu. cbn. done.
    + apply IH.
Qed.

End Parse.

(** X11.  What [parseRssFeed] makes of a document.  Without a [channel]
    element it throws [Invalid RSS feed: no <channel> element].  Otherwise
    the items without an enclosure URL are passed over; if one of the others
    carries a publication date that is not a date, the whole feed is
    refused with the RangeError of [toISOString]; if none does, the feed
    returned has [feedUrl] as its [url] and one episode for each item with
    audio, in document order, with the item's audio URL, its guid (the audio
    URL when it has none), its title (or [Untitled Episode]), its date in
    ISO form and its duration.  The adapter is not changed in any case. *)
Theorem X11_parseRssFeed_outcome (browser : Browser) (xml feedUrl : string)
    (self : PodcastSource) :
  match parseChannel browser xml with
  | None =>
      parseRssFeed browser xml feedUrl self
      = (Throw (Error "Invalid RSS feed: no <channel> element"), self)
  | Some chan =>
      let audible := List.filter has_audio (chan_items chan) in
      if forallb (date_ok browser) audible
      then exists feed,
             parseRssFeed browser xml feedUrl self = (Ok feed, self)
             /\ url feed = feedUrl
             /\ feed_title feed = nullish (chan_title chan) "Unknown Podcast"
             /\ Forall2 (episode_of_item browser) audible (episodes feed)
      else parseRssFeed browser xml feedUrl self
           = (Throw (RangeError "Invalid time value"), self)
  end.
Proof.
  unfold parseRssFeed. destruct (parseChannel browser xml) as [chan|]; [|done].
  cbn zeta. unfold bind.
  pose proof (parseItems_spec browser (chan_items chan) [] self) as H.
  destruct (forallb _ _).
  - destruct H as (new & -> & Hnew). eexists. split; [reflexivity|]. by cbn.
  - by rewrite H.
Qed.

Lemma X11_parseRssFeed_outcome_witness :
  exists feed,
    parseRssFeed sample_browser "https://example.com/feed.xml" "https://example.com/feed.xml"
      fresh_podcasts = (Ok feed, fresh_podcasts)
    /\ Forall2 (episode_of_item sample_browser) (chan_items sample_channel) (episodes feed)
    /\ map guid (episodes feed) = ["ep-3"; "ep-2"; "ep-1"].
Proof.
  pose proof (X11_parseRssFeed_outcome sample_browser "https://example.com/feed.xml"
                "https://example.com/feed.xml" fresh_podcasts) as H.
  change (parseChannel sample_browser "https://example.com/feed.xml")
    with (Some sample_channel) in H.
  cbv zeta in H.
  change (forallb (date_ok sample_browser) (List.filter has_audio (chan_items sample_channel)))
    with true in H.
  destruct H as (feed & Hrun & _ & _ & Heps).
  exists feed. split; [exact Hrun|]. split; [exact Heps|].
  vm_compute in Hrun. injection Hrun as <-. reflexivity.
Defined.

(** ** Signing in, and resolving a channel *)

Lemma YouTube_getCollectionItems_signed_out (api : YouTubeApi) c options self :
  truthy (accessToken self) = false ->
  YouTubeSource_getCollectionItems api c options self
  = (Throw (Error "YouTube: not authenticated"), self).
Proof.
  intros Htok. unfold YouTubeSource_getCollectionItems, bind at 1.
  rewrite getUploadsPlaylistId_run. cbv zeta. rewrite Htok. cbn [negb].
  destruct (truthy (uploadsPlaylistCache self !! c)); [|done].
  unfold bind, fetchApi, bind, this. by rewrite Htok.
Qed.

Lemma Spotify_fetchApi_signed_out {T} (reply : string -> Reply T) self :
  truthy (spotify_accessToken self) = false ->
  SpotifySource_fetchApi reply self = (Throw (Error "Spotify: not authenticated"), self).
Proof. intros Htok. unfold SpotifySource_fetchApi, bind, this. by rewrite Htok. Qed.

(** X12.  Without a usable token nothing is sent.  When the token is
    missing or empty, [getCollectionItems] and [checkForUpdates] of
    [YouTubeSource] and the four listings of [SpotifySource] throw the
    adapter's [not authenticated] error, whatever the API would answer, and
    leave the adapter, its record of requests included, as it was.  An
    empty token is enough for this, although [isAuthenticated] answers
    true for it. *)
Theorem X12_not_authenticated :
  (forall (api : YouTubeApi) (c marker : string) (options : option FetchMediaOptions)
          (fuel : nat) (self : YouTubeSource),
     truthy (accessToken self) = false ->
     YouTubeSource_getCollectionItems api c options self
       = (Throw (Error "YouTube: not authenticated"), self)
     /\ checkForUpdates (H := YouTubeSource_MediaSource api (S fuel)) c marker self
        = (Throw (Error "YouTube: not authenticated"), self))
  /\ (forall (api : SpotifyApi) (c query : string) (since : option string)
             (options : option FetchMediaOptions) (self : SpotifySource),
        truthy (spotify_accessToken self) = false ->
        SpotifySource_getAvailableMedia api options self
          = (Throw (Error "Spotify: not authenticated"), self)
        /\ SpotifySource_getCollectionItems api c options self
           = (Throw (Error "Spotify: not authenticated"), self)
        /\ SpotifySource_getRecentMedia api since options self
           = (Throw (Error "Spotify: not authenticated"), self)
        /\ SpotifySource_search api query options self
           = (Throw (Error "Spotify: not authenticated"), self))
  /\ (forall (self : YouTubeSource),
        accessToken self = Some "" ->
        YouTubeSource_isAuthenticated self = (Ok true, self)
        /\ truthy (accessToken self) = false)
  /\ (forall (self : SpotifySource),
        spotify_accessToken self = Some "" ->
        SpotifySource_isAuthenticated self = (Ok true, self)
        /\ truthy (spotify_accessToken self) = false).
Proof.
  split; [|split; [|split]].
  - intros api c marker options fuel self Htok.
    split; [by apply YouTube_getCollectionItems_signed_out|].
    rewrite YouTubeSource_checkForUpdates, page_walk_step.
    by rewrite YouTube_getCollectionItems_signed_out.
  - intros api c query since options self Htok.
    unfold SpotifySource_getAvailableMedia, SpotifySource_getCollectionItems,
      SpotifySource_getRecentMedia, SpotifySource_search, bind.
    by rewrite !Spotify_fetchApi_signed_out.
  - intros self Htok. unfold YouTubeSource_isAuthenticated, bind, this, ret.
    by rewrite Htok.
  - intros self Htok. unfold SpotifySource_isAuthenticated, bind, this, ret.
    by rewrite Htok.
Qed.

Lemma X12_not_authenticated_witness :
  truthy (accessToken {| accessToken := Some ""; uploadsPlaylistCache := ∅; sent := [] |})
  = false
  /\ checkForUpdates (H := YouTubeSource_MediaSource test_channel 1) "UC123" "vid-last"
       {| accessToken := Some ""; uploadsPlaylistCache := ∅; sent := [] |}
     = (Throw (Error "YouTube: not authenticated"),
        {| accessToken := Some ""; uploadsPlaylistCache := ∅; sent := [] |})
  /\ YouTubeSource_isAuthenticated
       {| accessToken := Some ""; uploadsPlaylistCache := ∅; sent := [] |}
     = (Ok true, {| accessToken := Some ""; uploadsPlaylistCache := ∅; sent := [] |}).
Proof.
  split; [reflexivity|]. split.
  - apply (proj1 X12_not_authenticated test_channel "UC123" "vid-last" None 0%nat
             {| accessToken := Some ""; uploadsPlaylistCache := ∅; sent := [] |} eq_refl).
  - apply (proj1 (proj2 (proj2 X12_not_authenticated))
             {| accessToken := Some ""; uploadsPlaylistCache := ∅; sent := [] |} eq_refl).
Defined.

(** X13.  Once a channel has resolved to a non-empty uploads playlist, the
    answer is kept: the cache holds it, the other channels are as they
    were, at most the one channel request was sent for it, and from then
    on the channel resolves to the same playlist without a request,
    whatever the API has become and whichever token is set, none
    included. *)
Theorem X13_uploads_playlist_is_cached (api api' : YouTubeApi) (c u : string)
    (self self' : YouTubeSource) :
  getUploadsPlaylistId api c self = (Ok u, self') ->
  u <> "" ->
  uploadsPlaylistCache self' !! c = Some u
  /\ (forall other, other <> c ->
        uploadsPlaylistCache self' !! other = uploadsPlaylistCache self !! other)
  /\ (sent self' = sent self \/ sent self' = sent self ++ [ChannelsRequest c])
  /\ getUploadsPlaylistId api' c self' = (Ok u, self')
  /\ (forall token,
        getUploadsPlaylistId api' c (snd (YouTubeSource_setAccessToken token self'))
        = (Ok u, snd (YouTubeSource_setAccessToken token self'))).
Proof.
  intros Hrun Hu.
  assert (Hcache : uploadsPlaylistCache self' !! c = Some u
                   /\ (forall other, other <> c ->
                         uploadsPlaylistCache self' !! other
                         = uploadsPlaylistCache self !! other)
                   /\ (sent self' = sent self
                       \/ sent self' = sent self ++ [ChannelsRequest c])).
  { rewrite getUploadsPlaylistId_run in Hrun. cbv zeta in Hrun.
    destruct (truthy (uploadsPlaylistCache self !! c)) eqn:Hcached.
    - injection Hrun as Hu' <-.
      apply truthy_inv in Hcached as (v & Hv & _). rewrite Hv in *.
      cbn in Hu'. subst v. by auto.
    - destruct (negb (truthy (accessToken self))); [done|].
      destruct (channels api _ c) as [e|st txt|[[|v vs]]]; try done.
      cbn [channel_uploads] in Hrun. injection Hrun as -> <-.
      cbn [uploadsPlaylistCache sent]. split; [apply lookup_insert_eq|].
      split; [|by right]. intros other Hother. by apply lookup_insert_ne. }
  destruct Hcache as (Hc & Hothers & Hsent).
  assert (Hagain : forall s, uploadsPlaylistCache s = uploadsPlaylistCache self' ->
                     getUploadsPlaylistId api' c s = (Ok u, s)).
  { intros s Hs. rewrite getUploadsPlaylistId_run. cbv zeta.
    rewrite Hs, Hc, (truthy_Some u Hu). done. }
  split; [done|]. split; [done|]. split; [done|]. split; [by apply Hagain|].
  intros token. by apply Hagain.
Qed.

Lemma X13_uploads_playlist_is_cached_witness :
  exists self',
    getUploadsPlaylistId test_channel "UC123" signed_in = (Ok "UU789", self')
    /\ sent self' = [ChannelsRequest "UC123"]
    /\ getUploadsPlaylistId (long_channel 0) "UC123"
         (snd (YouTubeSource_setAccessToken None self'))
       = (Ok "UU789", snd (YouTubeSource_setAccessToken None self')).
Proof.
  assert (Hrun : getUploadsPlaylistId test_channel "UC123" signed_in
                 = (Ok "UU789", snd (getUploadsPlaylistId test_channel "UC123" signed_in)))
    by (vm_compute; reflexivity).
  exists (snd (getUploadsPlaylistId test_channel "UC123" signed_in)).
  split; [exact Hrun|]. split; [vm_compute; reflexivity|].
  refine (proj2 (proj2 (proj2 (proj2
            (X13_uploads_playlist_is_cached test_channel (long_channel 0) "UC123" "UU789"
               signed_in _ Hrun _)))) None).
  discriminate.
Defined.

(** X14.  A channel the API does not know.  Signed in and with nothing
    cached for the channel, an answer without items makes
    [getCollectionItems] and [checkForUpdates] throw
    [YouTube channel not found: <id>] after the one channel request and
    before any page request.  Nothing is cached, so the next call asks
    again. *)
Theorem X14_channel_not_found (api : YouTubeApi) (c tok marker : string)
    (options : option FetchMediaOptions) (fuel : nat) (self : YouTubeSource) :
  accessToken self = Some tok ->
  tok <> "" ->
  truthy (uploadsPlaylistCache self !! c) = false ->
  channels api tok c = Json {| channel_uploads := [] |} ->
  let asked := {| accessToken := accessToken self;
                  uploadsPlaylistCache := uploadsPlaylistCache self;
                  sent := sent self ++ [ChannelsRequest c] |} in
  YouTubeSource_getCollectionItems api c options self
    = (Throw (Error ("YouTube channel not found: " +:+ c)), asked)
  /\ checkForUpdates (H := YouTubeSource_MediaSource api (S fuel)) c marker self
     = (Throw (Error ("YouTube channel not found: " +:+ c)), asked)
  /\ page_requests asked = page_requests self
  /\ sent (snd (YouTubeSource_getCollectionItems api c options asked))
     = sent self ++ [ChannelsRequest c; ChannelsRequest c].
Proof.
  intros Htok Hne Hcached Hreply asked.
  assert (Hrun : forall opts s,
             accessToken s = Some tok ->
             uploadsPlaylistCache s = uploadsPlaylistCache self ->
             YouTubeSource_getCollectionItems api c opts s
             = (Throw (Error ("YouTube channel not found: " +:+ c)),
                {| accessToken := accessToken s;
                   uploadsPlaylistCache := uploadsPlaylistCache s;
                   sent := sent s ++ [ChannelsRequest c] |})).
  { intros opts s Hs Hc. unfold YouTubeSource_getCollectionItems, bind at 1.
    rewrite getUploadsPlaylistId_run. cbv zeta.
    rewrite Hc, Hcached, Hs, (truthy_Some tok Hne). cbn [negb nullish from_option id].
    by rewrite Hreply. }
  split; [by apply Hrun|]. split.
  - rewrite YouTubeSource_checkForUpdates, page_walk_step. by rewrite Hrun.
  - split; [apply page_requests_channel|].
    rewrite (Hrun options asked Htok eq_refl). subst asked.
    cbn [snd sent accessToken uploadsPlaylistCache]. by rewrite <- app_assoc.
Qed.

Lemma X14_channel_not_found_witness :
  checkForUpdates
    (H := YouTubeSource_MediaSource
            {| channels := fun _ _ => Json {| channel_uploads := [] |};
               playlistItems := playlistItems test_channel |} 1)
    "UC-gone" "vid-last" signed_in
  = (Throw (Error "YouTube channel not found: UC-gone"),
     {| accessToken := Some "yt-token"; uploadsPlaylistCache := ∅;
        sent := [ChannelsRequest "UC-gone"] |}).
Proof.
  refine (proj1 (proj2 (X14_channel_not_found
            {| channels := fun _ _ => Json {| channel_uploads := [] |};
               playlistItems := playlistItems test_channel |}
            "UC-gone" "yt-token" "vid-last" None 0%nat signed_in eq_refl _ eq_refl eq_refl))).
  discriminate.
Defined.

(** ** What an update check returns *)

Lemma occurs_before marker l : occurs marker (before marker l) = false.
Proof.
  induction l as [|i l IH]; [done|]. cbn [before].
  destruct (String.eqb (item_id i) marker) eqn:E; [done|].
  cbn [occurs existsb]. rewrite E. exact IH.
Qed.

Lemma occurs_rev marker l : occurs marker (rev l) = occurs marker l.
Proof.
  induction l as [|i l IH]; [done|]. cbn [rev]. rewrite occurs_app, IH.
  cbn [occurs existsb]. rewrite orb_false_r. apply orb_comm.
Qed.

Lemma page_walk_no_marker (api : YouTubeApi) c marker :
  forall fuel acc cur self result self',
    occurs marker acc = false ->
    page_walk api fuel c marker acc cur self = (Ok result, self') ->
    occurs marker result = false.
Proof.
  induction fuel as [|fuel IH]; intros acc cur self result self' Hacc; [done|].
  rewrite page_walk_step.
  destruct (YouTubeSource_getCollectionItems api c _ self) as [[page|e|] s1]; [|done..].
  cbv zeta. rewrite (scan_until_spec item_id (fun item => item)) by done.
  rewrite map_id. cbn [fst snd].
  assert (Hnew : occurs marker (acc ++ before marker (items page)) = false)
    by (by rewrite occurs_app, Hacc, occurs_before).
  destruct (negb (occurs marker (items page)) && truthy (nextCursor page)).
  - by apply IH.
  - intros [= <- _]. by rewrite occurs_rev.
Qed.

(** X15.  The marker itself is never among the items an update check
    returns: whatever the feed or the API delivers, and wherever or however
    often the marker is listed, no returned item carries the id passed as
    [lastSeenItemId].  This holds for [PodcastSource] and, over every walk
    that returns, for [YouTubeSource]. *)
Theorem X15_marker_is_never_returned (marker : string) (result : list MediaItem) :
  (forall (browser : Browser) (feedUrl : string) (self self' : PodcastSource),
     checkForUpdates (H := PodcastSource_MediaSource browser) feedUrl marker self
       = (Ok result, self') ->
     occurs marker result = false)
  /\ (forall (api : YouTubeApi) (fuel : nat) (c : string) (self self' : YouTubeSource),
        checkForUpdates (H := YouTubeSource_MediaSource api fuel) c marker self
          = (Ok result, self') ->
        occurs marker result = false).
Proof.
  split.
  - intros browser feedUrl self self'. rewrite PodcastSource_checkForUpdates.
    destruct (fst (fetchAndParseFeed browser feedUrl self)) as [feed|e|]; [|done..].
    intros [= <- _]. by rewrite occurs_rev, occurs_before.
  - intros api fuel c self self'. rewrite YouTubeSource_checkForUpdates.
    by apply page_walk_no_marker.
Qed.

Lemma X15_marker_is_never_returned_witness :
  exists result self',
    checkForUpdates (H := YouTubeSource_MediaSource test_channel 1) "UC123" "vid-new-1"
      signed_in = (Ok result, self')
    /\ occurs "vid-new-1" result = false
    /\ map item_id result = ["vid-new-2"].
Proof.
  assert (Hrun : checkForUpdates (H := YouTubeSource_MediaSource test_channel 1)
                   "UC123" "vid-new-1" signed_in
                 = (Ok (match fst (checkForUpdates
                                     (H := YouTubeSource_MediaSource test_channel 1)
                                     "UC123" "vid-new-1" signed_in) with
                        | Ok r => r
                        | _ => []
                        end),
                    snd (checkForUpdates (H := YouTubeSource_MediaSource test_channel 1)
                           "UC123" "vid-new-1" signed_in)))
    by (vm_compute; reflexivity).
  eexists _, _. split; [exact Hrun|]. split.
  - exact (proj2 (X15_marker_is_never_returned "vid-new-1" _)
             test_channel 1%nat "UC123" signed_in _ Hrun).
  - vm_compute. reflexivity.
Defined.

(** ** [SpotifySource] *)

(** Whatever number [String] prints, [parseInt] reads back. *)
Lemma parseInt_String_any (n : number) :
  parseInt (String_ n) = n /\ truthy (Some (String_ n)) = true.
Proof.
  destruct n as [z|]; [|done].
  destruct z as [|p|p]; [done | by apply parseInt_String |].
  cbn [String_]. unfold pretty, pretty_Z, pretty, pretty_positive, pretty, pretty_N.
  rewrite decide_False by done.
  destruct (pretty_go_head (N.pos p) "" ltac:(lia)) as (c & r & E & Hc).
  destruct (digits_value_pretty_go (N.pos p) "") as (k & _ & Hgo).
  specialize (Hgo 0). rewrite E in *.
  change ("-" +:+ String c r) with (String "-" (String c r)).
  split; [|done]. unfold parseInt. cbn [trimStart]. 
  change (is_white "-") with false. cbv iota beta.
  cbn [starts_with_digit]. rewrite Hc, Hgo. cbn [digits_value]. f_equal.
Qed.

Lemma next_offset_reads_back next offset limit cur size :
  next_offset next offset limit = Some cur ->
  offset_of (with_cursor size (Some cur)) = add offset limit.
Proof.
  unfold next_offset. destruct (truthy next); [|done]. intros [= <-].
  destruct (parseInt_String_any (add offset limit)) as [Hread Htruthy].
  unfold offset_of, with_cursor. cbn [mbind option_bind cursor].
  rewrite Htruthy. cbn [nullish from_option id]. exact Hread.
Qed.

Lemma Spotify_fetchApi_Ok {T} (reply : string -> Reply T) self self' (body : T) :
  SpotifySource_fetchApi reply self = (Ok body, self') ->
  self' = self
  /\ exists tok, spotify_accessToken self = Some tok /\ tok <> "" /\ reply tok = Json body.
Proof.
  unfold SpotifySource_fetchApi, bind, this.
  destruct (truthy (spotify_accessToken self)) eqn:Htok; [|done]. cbn [negb].
  apply truthy_inv in Htok as (tok & -> & Hne). cbn [nullish from_option id].
  destruct (reply tok) as [e|st txt|b] eqn:Hreply; try done.
  intros [= <- <-]. split; [done|]. by exists tok.
Qed.

(** X16.  The cursor of a Spotify page continues where the request left
    off.  Take a request whose offset and page size in force are safe
    integers (or [NaN]) with a sum that is one too.  Whenever one of the
    four listings of [SpotifySource] returns a page with a [nextCursor] for
    it, the adapter is unchanged, and that cursor, passed back, is read as
    the offset of the request plus the page size; it does not depend on the
    number of items of the page, which can be smaller when entries without
    a track were dropped. *)
Theorem X16_spotify_next_cursor (api : SpotifyApi) (c query : string)
    (since : option string) (options : option FetchMediaOptions)
    (size : option number) (cur : string) (self self' : SpotifySource) :
  representable (offset_of options) ->
  representable (nullish (options ≫= limit) DEFAULT_LIMIT) ->
  representable (add (offset_of options) (nullish (options ≫= limit) DEFAULT_LIMIT)) ->
  let continued :=
    self' = self
    /\ offset_of (with_cursor size (Some cur))
       = add (offset_of options) (nullish (options ≫= limit) DEFAULT_LIMIT) in
  (forall page,
     SpotifySource_getAvailableMedia api options self = (Ok page, self') ->
     nextCursor page = Some cur -> continued)
  /\ (forall page,
        SpotifySource_getCollectionItems api c options self = (Ok page, self') ->
        nextCursor page = Some cur -> continued)
  /\ (forall page,
        SpotifySource_getRecentMedia api since options self = (Ok page, self') ->
        nextCursor page = Some cur -> continued)
  /\ (forall page,
        SpotifySource_search api query options self = (Ok page, self') ->
        nextCursor page = Some cur -> continued).
Proof.
  intros _ _ _. cbv zeta.
  unfold SpotifySource_getAvailableMedia, SpotifySource_getCollectionItems,
    SpotifySource_getRecentMedia, SpotifySource_search, bind, ret.
  split; [|split; [|split]]; intros page Hrun Hcur;
    match type of Hrun with
    | context [SpotifySource_fetchApi ?reply self] =>
        destruct (SpotifySource_fetchApi reply self) as [[data|e|] s1] eqn:Hfetch;
          [|done..];
        apply Spotify_fetchApi_Ok in Hfetch as [-> _]
    end;
    injection Hrun as <- <-; cbn [nextCursor] in Hcur;
    (split; [done | by eapply next_offset_reads_back]).
Qed.

Lemma X16_spotify_next_cursor_witness :
  representable (offset_of (with_cursor (Some (Int 2)) None))
  /\ representable (Int 2)
  /\ representable (add (offset_of (with_cursor (Some (Int 2)) None)) (Int 2))
  /\ exists page,
       SpotifySource_getCollectionItems sample_spotify "pl1"
         (with_cursor (Some (Int 2)) None) spotify_signed_in
         = (Ok page, spotify_signed_in)
       /\ map item_id (items page) = ["t1"]
       /\ nextCursor page = Some "2"
       /\ offset_of (with_cursor (Some (Int 2)) (Some "2")) = Int 2.
Proof.
  assert (Hsafe : representable (Int 0) /\ representable (Int 2))
    by (unfold representable, MAX_SAFE_INTEGER; lia).
  destruct Hsafe as [H0 H2].
  split; [exact H0|]. split; [exact H2|]. split; [exact H2|].
  eexists. split; [reflexivity|]. split; [reflexivity|]. split; [reflexivity|].
  exact (proj2 (proj1 (proj2 (X16_spotify_next_cursor sample_spotify "pl1" "" None
                                (with_cursor (Some (Int 2)) None) (Some (Int 2)) "2"
                                spotify_signed_in spotify_signed_in H0 H2 H2))
                  _ eq_refl eq_refl)).
Defined.








(** ** [formatTimeAgo] *)

(** X18.  The age [formatTimeAgo] prints, from the milliseconds elapsed
    between the date and now.  Under a minute, a date in the future
    included, it is [just now]; then whole minutes up to 59, whole hours
    up to 23, whole days up to 6 and whole weeks up to 3, each rounded
    down and never 0; from four weeks on, and for a date that does not
    parse, it is the date in the locale's form. *)
Theorem X18_formatTimeAgo (now time : Z) (localeDate : string) :
  let elapsed := now - time in
  formatTimeAgo (Int now) (Int time) localeDate
  = (if elapsed <? 60000 then "just now"
     else if elapsed <? 3600000 then String_ (Int (elapsed / 60000)) +:+ "m ago"
     else if elapsed <? 86400000 then String_ (Int (elapsed / 3600000)) +:+ "h ago"
     else if elapsed <? 604800000 then String_ (Int (elapsed / 86400000)) +:+ "d ago"
     else if elapsed <? 2419200000 then String_ (Int (elapsed / 604800000)) +:+ "w ago"
     else localeDate)
  /\ (60000 <= elapsed < 3600000 -> 1 <= elapsed / 60000 <= 59)
  /\ (3600000 <= elapsed < 86400000 -> 1 <= elapsed / 3600000 <= 23)
  /\ (86400000 <= elapsed < 604800000 -> 1 <= elapsed / 86400000 <= 6)
  /\ (604800000 <= elapsed < 2419200000 -> 1 <= elapsed / 604800000 <= 3)
  /\ formatTimeAgo (Int now) NaN localeDate = localeDate.
Proof.
  cbv zeta. unfold formatTimeAgo. cbn [number_sub floor_div lt].
  generalize (now - time). intros e.
  split; [|split; [|split; [|split; [|split]]]];
    try (intros; Z.div_mod_to_equations; lia); [|done].
  rewrite !Z.div_div by lia.
  change (1000 * 60 * 60 * 24 * 7) with 604800000.
  change (1000 * 60 * 60 * 24) with 86400000.
  change (1000 * 60 * 60) with 3600000.
  change (1000 * 60) with 60000.
  destruct (Z.ltb_spec (e / 1000) 60), (Z.ltb_spec e 60000);
    try (exfalso; Z.div_mod_to_equations; lia); [done|].
  destruct (Z.ltb_spec (e / 60000) 60), (Z.ltb_spec e 3600000);
    try (exfalso; Z.div_mod_to_equations; lia); [done|].
  destruct (Z.ltb_spec (e / 3600000) 24), (Z.ltb_spec e 86400000);
    try (exfalso; Z.div_mod_to_equations; lia); [done|].
  destruct (Z.ltb_spec (e / 86400000) 7), (Z.ltb_spec e 604800000);
    try (exfalso; Z.div_mod_to_equations; lia); [done|].
  destruct (Z.ltb_spec (e / 604800000) 4), (Z.ltb_spec e 2419200000);
    try (exfalso; Z.div_mod_to_equations; lia); done.
Qed.

Lemma X18_formatTimeAgo_witness :
  formatTimeAgo (Int 1720000000000) (Int (1720000000000 - 7200000)) "7/3/2024" = "2h ago"
  /\ formatTimeAgo (Int 1720000000000) (Int (1720000000000 + 5000)) "7/3/2024" = "just now".
Proof.
  split.
  - rewrite (proj1 (X18_formatTimeAgo 1720000000000 (1720000000000 - 7200000) "7/3/2024")).
    reflexivity.
  - rewrite (proj1 (X18_formatTimeAgo 1720000000000 (1720000000000 + 5000) "7/3/2024")).
    reflexivity.
Defined.

(** ** How the listing, [addFeed] and the update check fit together *)



(** X19.  Listing a feed the adapter does not hold is adding it and then
    listing it: on an unknown URL [getCollectionItems] returns, throws and
    leaves the adapter exactly as [addFeed] followed by [getCollectionItems]
    does. *)
Theorem X19_listing_an_unknown_feed_adds_it (browser : Browser) (feedUrl : string)
    (options : option FetchMediaOptions) (self : PodcastSource) :
  Map_get (feeds self) feedUrl = None ->
  getCollectionItems browser feedUrl options self
  = (addFeed browser feedUrl ;;; getCollectionItems browser feedUrl options) self.
Proof.
  intros Hget. unfold bind at 1. rewrite addFeed_run, getCollectionItems_run, Hget.
  destruct (fst (fetchAndParseFeed browser feedUrl self)) as [feed|e|]; [|done..].
  rewrite (getCollectionItems_page browser feedUrl feed); [done|].
  cbn [with_feed feeds]. apply Map_get_set.
Qed.

Lemma X19_listing_an_unknown_feed_adds_it_witness :
  Map_get (feeds fresh_podcasts) "https://example.com/feed.xml" = None
  /\ getCollectionItems sample_browser "https://example.com/feed.xml" None fresh_podcasts
     = (addFeed sample_browser "https://example.com/feed.xml" ;;;
        getCollectionItems sample_browser "https://example.com/feed.xml" None)
         fresh_podcasts
  /\ snd (getCollectionItems sample_browser "https://example.com/feed.xml" None
            fresh_podcasts) = sample_podcasts.
Proof.
  split; [reflexivity|]. split; [|reflexivity].
  apply (X19_listing_an_unknown_feed_adds_it sample_browser "https://example.com/feed.xml"
           None fresh_podcasts eq_refl).
Defined.



(** ** What a page of uploads costs *)



